(** * Valentine's Song Generator: generation history and polling

    A shallow embedding of the history store, the reconciliation poller and
    the generation orchestrator of the [MusicGenerator] component, with the
    properties of its specification stated and settled over it.

    Conventions of the embedding.
    - A JavaScript property that may be [undefined] (or absent from the
      object) is an [option]; [None] is [undefined].  JSON drops
      [undefined] properties, so the two coincide across persistence.
    - Numbers that hold times are epoch milliseconds in [Z].
    - [Date.now()] is an input: an operation that reads the clock inside
      an array callback takes a function from the array index to the
      reading made in that callback.
    - React state and [localStorage] are passed explicitly; the [history]
      variable that the component's closures capture is a section
      variable of the closures that read it. *)

From Stdlib Require Import Ascii.
From stdpp Require Import base option list strings gmap pretty.

Local Open Scope string_scope.

(** ** Data model *)

(** Modelled from the spec: the [Song] type of [../types/api], which is
    imported by the component but defined outside the available sources.
    The spec gives [{ id, title, tags, song_path, image_path, finished }]. *)
Record Song := {
  song_id : string;
  song_title : string;
  song_tags : list string;
  song_path : string;
  image_path : string;
  finished : bool
}.

(** [HistoryItemInput] (and [GenerationHistoryItem], which the component
    uses interchangeably).  Every property is optional at run time, since
    items also come from parsed storage. *)
Record HistoryItem := {
  id : option string;
  prompt : option string;
  status : option string;
  timestamp : option Z;
  completedAt : option Z;
  songs : option (list Song);
  error : option string;
  tags : option string
}.

(** [Partial<GenerationHistoryItem>]: for each key, [None] when the key is
    absent from the object literal and [Some v] when it is present with
    value [v] (which may itself be [undefined]). *)
Record Updates := {
  u_id : option (option string);
  u_prompt : option (option string);
  u_status : option (option string);
  u_timestamp : option (option Z);
  u_completedAt : option (option Z);
  u_songs : option (option (list Song));
  u_error : option (option string);
  u_tags : option (option string)
}.

(** One key of the object spread [{ ...item, ...updates }]. *)
Definition spreadKey {A} (old : option A) (upd : option (option A)) : option A :=
  match upd with
  | Some v => v
  | None => old
  end.

(** [{ ...item, ...updates }] *)
Definition spread (item : HistoryItem) (updates : Updates) : HistoryItem :=
  {| id := spreadKey (id item) (u_id updates);
     prompt := spreadKey (prompt item) (u_prompt updates);
     status := spreadKey (status item) (u_status updates);
     timestamp := spreadKey (timestamp item) (u_timestamp updates);
     completedAt := spreadKey (completedAt item) (u_completedAt updates);
     songs := spreadKey (songs item) (u_songs updates);
     error := spreadKey (error item) (u_error updates);
     tags := spreadKey (tags item) (u_tags updates) |}.

Definition HISTORY_KEY : string := "music_generation_history".
Definition MAX_HISTORY_ITEMS : nat := 5.

(** The value held by [localStorage] under [HISTORY_KEY], identified by
    what the component's readers make of the text:
    - [Encoded items]: the text is the JSON encoding of an array, as
      [JSON.stringify] writes it, with no [null] element; an element is
      held by the properties the component reads, each of its declared
      type or absent;
    - [Unparseable text]: any other text: [JSON.parse] throws on it, or
      its value is not such an array, so that the [.map] over it throws. *)
Inductive persisted :=
  | Unparseable (text : string)
  | Encoded (items : list HistoryItem).

(** The history store: the [history] React state and the storage key
    ([None]: the key is not set, [getItem] returns [null]). *)
Record Store := {
  st_history : list HistoryItem;
  st_storage : option persisted
}.

(** ** Normalisation on save *)

(** [['pending', 'completed', 'failed'].includes(item.status)] *)
Definition validStatus (s : option string) : bool :=
  match s with
  | Some v => bool_decide (v ∈ ["pending"; "completed"; "failed"])
  | None => false
  end.

(** [x || ''] on a string-or-undefined *)
Definition orEmpty (x : option string) : option string :=
  Some (default "" x).

(** [item.timestamp || Date.now()]: [undefined] and [0] are falsy. *)
Definition orNow (now : Z) (t : option Z) : option Z :=
  match t with
  | Some v => if bool_decide (v = 0%Z) then Some now else Some v
  | None => Some now
  end.

(** The callback of the [newHistory.map] in [updateHistory]. *)
Definition validItem (now : Z) (item : HistoryItem) : HistoryItem :=
  {| id := orEmpty (id item);
     prompt := orEmpty (prompt item);
     status := if validStatus (status item) then status item else Some "pending";
     timestamp := orNow now (timestamp item);
     completedAt := completedAt item;
     songs := songs item;
     error := error item;
     tags := tags item |}.

(** [validHistory] of [updateHistory]; [clock i] is the reading of
    [Date.now()] in the callback for index [i]. *)
Definition validHistory (clock : nat → Z) (newHistory : list HistoryItem)
  : list HistoryItem :=
  imap (λ i item, validItem (clock i) item) newHistory.

(** [updateHistory]: sets the state and writes the same list to storage. *)
Definition updateHistory (clock : nat → Z) (newHistory : list HistoryItem)
  : Store :=
  {| st_history := validHistory clock newHistory;
     st_storage := Some (Encoded (validHistory clock newHistory)) |}.

(** ** Store operations

    [history] is the variable the closures capture: the state of the
    render that created them. *)
Section Closures.
Variable history : list HistoryItem.

(** [addToHistory] *)
Definition addToHistory (item : HistoryItem) (clock : nat → Z) : Store :=
  let newItem :=
    {| id := id item; prompt := prompt item;
       status := Some "pending";
       timestamp := timestamp item;
       completedAt := None;
       songs := songs item; error := error item; tags := tags item |} in
  let newHistory := newItem :: history in
  updateHistory clock newHistory.

(** [removeFromHistory] *)
Definition removeFromHistory (taskId : string) (clock : nat → Z) : Store :=
  let newHistory := filter (λ item, id item ≠ Some taskId) history in
  updateHistory clock newHistory.

(** [updateHistoryItem] *)
Definition updateHistoryItem (taskId : string) (updates : Updates)
    (clock : nat → Z) : Store :=
  let newHistory :=
    (λ item, if bool_decide (id item = Some taskId)
             then spread item updates else item) <$> history in
  updateHistory clock newHistory.
End Closures.

(** [clearHistory], the part that acts on the store. *)
Definition clearHistory (clock : nat → Z) : Store := updateHistory clock [].

(** ** Loading on mount *)

(** The callback of the [parsedHistory.map] in the mount effect. *)
Definition loadedItem (item : HistoryItem) : HistoryItem :=
  {| id := id item; prompt := prompt item;
     status := if bool_decide (status item = Some "completed")
                  || bool_decide (status item = Some "failed")
               then status item else Some "pending";
     timestamp := timestamp item; completedAt := completedAt item;
     songs := songs item; error := error item; tags := tags item |}.

(** The mount effect.  An empty text is falsy and skips the [try] block;
    a throw inside it leaves the state as it is and removes the key. *)
Definition loadHistory (st : Store) : Store :=
  match st_storage st with
  | None => st
  | Some (Unparseable text) =>
      if bool_decide (text = "") then st
      else {| st_history := st_history st; st_storage := None |}
  | Some (Encoded parsedHistory) =>
      {| st_history := loadedItem <$> parsedHistory;
         st_storage := st_storage st |}
  end.

(** The store of a freshly mounted component: [useState([])] over
    whatever the browser holds under the key. *)
Definition mountStore (stored : option persisted) : Store :=
  loadHistory {| st_history := []; st_storage := stored |}.

(** ** The reconciliation poller *)

(** Modelled from the spec: the part of [TaskResponse] (from
    [../types/api], outside the available sources) that the poller reads,
    [data.status], [data.output.songs] and [data.error?.message]; the spec
    gives the status reply as [{status, output:{songs}, error:{message},
    meta}].  [output] is taken to be present. *)
Record TaskData := {
  task_status : string;
  task_songs : option (list Song);
  task_error_message : option string
}.

(** The text a template literal makes of a task id. *)
Definition idText (taskId : option string) : string :=
  default "undefined" taskId.

(** The callback of [parsedHistory.map] in
    [updateHistoryWithCompletedTasks], for one item: [taskDetails] is what
    [fetchTaskDetails(item.id)] resolved to ([None]: the request failed
    and the helper returned [null]), [now] the reading of [Date.now()].
    The second component tells whether the callback set [hasUpdates]. *)
Definition checkTask (taskDetails : option TaskData) (now : Z)
    (item : HistoryItem) : HistoryItem * bool :=
  if bool_decide (status item = Some "pending") then
    match taskDetails with
    | Some data =>
        let isCompleted := bool_decide (task_status data = "completed") in
        let isFailed := bool_decide (task_status data = "failed") in
        if isCompleted || isFailed then
          ({| id := id item; prompt := prompt item;
              status := Some (if isCompleted then "completed" else "failed");
              timestamp := timestamp item;
              completedAt := Some now;
              songs := if isCompleted
                       then Some (default [] (task_songs data)) else None;
              error := if isFailed then task_error_message data else None;
              tags := tags item |}, true)
        else (item, false)
    | None => (item, false)
    end
  else (item, false).

(** [updateHistoryWithCompletedTasks].  [fetchTaskDetails i t] is the
    outcome of the request the callback for index [i] makes for task [t];
    [pollClock i] the clock reading of that callback; [clock] the readings
    of the save.  Without a stored value the function returns at once; on
    a text that does not parse the promise rejects and nothing is written. *)
Definition updateHistoryWithCompletedTasks
    (fetchTaskDetails : nat → string → option TaskData)
    (pollClock clock : nat → Z) (st : Store) : Store :=
  match st_storage st with
  | Some (Encoded parsedHistory) =>
      let checked :=
        imap (λ i item,
                checkTask (fetchTaskDetails i (idText (id item)))
                          (pollClock i) item) parsedHistory in
      let hasUpdates := existsb snd checked in
      let updatedHistory := fst <$> checked in
      if hasUpdates then updateHistory clock updatedHistory else st
  | _ => st
  end.

(** [history.some(item => item.status === 'pending')] *)
Definition hasPendingTasks (history : list HistoryItem) : bool :=
  existsb (λ item, bool_decide (status item = Some "pending")) history.

(** ** The generation request *)

Record SelectedOptions := {
  genre : string;
  voiceType : string;
  mood : string;
  era : string
}.

Record RequestInput := {
  gpt_description_prompt : string;
  lyrics_type : string;
  make_instrumental : bool;
  negative_tags : string;
  in_prompt : string;
  seed : Z;
  in_tags : string
}.

Record RequestData := {
  model : string;
  task_type : string;
  input : RequestInput
}.

Definition femaleTags : list string :=
  ["female_vocals"; "female_voice"; "female_singer"].
Definition maleTags : list string :=
  ["male_vocals"; "male_voice"; "male_singer"].

(** [isFemaleSinger], [voiceTags] and [negativeTags] of [generateMusic] *)
Definition isFemaleSinger (selectedOptions : SelectedOptions) : bool :=
  bool_decide (voiceType selectedOptions = "female").

Definition voiceTags (selectedOptions : SelectedOptions) : list string :=
  if isFemaleSinger selectedOptions then femaleTags else maleTags.

Definition negativeTags (selectedOptions : SelectedOptions) : list string :=
  if isFemaleSinger selectedOptions then maleTags else femaleTags.

Definition voiceDescription (selectedOptions : SelectedOptions) : string :=
  if isFemaleSinger selectedOptions
  then "female vocal, female singer, female voice"
  else "male vocal, male singer, male voice".

(** [Array.prototype.join] *)
Definition join (sep : string) (l : list string) : string :=
  String.concat sep l.

(** [requestData] of [generateMusic]; [random] is the value of
    [Math.floor(Math.random() * 1000000)]. *)
Definition requestData (selectedOptions : SelectedOptions) (lyrics : string)
    (random : Z) : RequestData :=
  {| model := "music-u";
     task_type := "generate_music";
     input :=
       {| gpt_description_prompt :=
            voiceDescription selectedOptions ++ ", " ++ genre selectedOptions
            ++ ", " ++ mood selectedOptions ++ ", " ++ era selectedOptions;
          lyrics_type := "user";
          make_instrumental := false;
          negative_tags := join "," (negativeTags selectedOptions);
          in_prompt := lyrics;
          seed := random;
          in_tags := join "," (voiceTags selectedOptions) |} |}.

(** The request [generateMusic] posts: none when the feature flag is off. *)
Definition submittedRequest (APP_ENABLED : bool)
    (selectedOptions : SelectedOptions) (lyrics : string) (random : Z)
  : option RequestData :=
  if APP_ENABLED then Some (requestData selectedOptions lyrics random)
  else None.

(** ** The per-submission poller *)

(** [meta] of the status reply; a date that is present is held as the
    value of [new Date(...).getTime()]. *)
Record Meta := {
  started_at : option Z;
  ended_at : option Z
}.

(** Modelled from the spec: [statusResponse.data] of the per-submission
    poll, the reply of the task-status endpoint, whose type is outside the
    available sources; the spec gives [{status, output:{songs},
    error:{message}, meta:{started_at, ended_at}}].  [output] is taken to
    be present. *)
Record StatusData := {
  sd_status : string;
  sd_songs : option (list Song);
  sd_meta : option Meta;
  sd_error_message : option string
}.

(** The updates passed to [updateHistoryItem] in the [completed] branch. *)
Definition completedUpdates (data : StatusData) (startTime now : Z)
  : Updates :=
  let endTime := default now (sd_meta data ≫= ended_at) in
  let startTimeFromMeta := default startTime (sd_meta data ≫= started_at) in
  {| u_id := None; u_prompt := None;
     u_status := Some (Some "completed");
     u_timestamp := Some (Some startTimeFromMeta);
     u_completedAt := Some (Some endTime);
     u_songs := Some (sd_songs data);
     u_error := None; u_tags := None |}.

(** [x || 'Failed to generate music'] on the error message *)
Definition orFailedMessage (m : option string) : string :=
  match m with
  | Some v => if bool_decide (v = "") then "Failed to generate music" else v
  | None => "Failed to generate music"
  end.

(** The updates passed to [updateHistoryItem] in the [failed] branch. *)
Definition failedUpdates (data : StatusData) : Updates :=
  {| u_id := None; u_prompt := None;
     u_status := Some (Some "failed");
     u_timestamp := None; u_completedAt := None; u_songs := None;
     u_error := Some (Some (orFailedMessage (sd_error_message data)));
     u_tags := None |}.

(** ** The component as a transition system *)

(** A call of [generateMusic] that awaits [axios.post]: the values its
    closure captured from the render in which the button was clicked. *)
Record Submission := {
  sub_history : list HistoryItem;
  sub_prompt : string;
  sub_options : SelectedOptions;
  sub_startTime : Z
}.

(** A live [pollInterval]: the task it watches and the closure it runs
    in, which is the closure of the [generateMusic] call that started it. *)
Record Poller := {
  p_taskId : string;
  p_startTime : Z;
  p_history : list HistoryItem
}.

Record App := {
  store : Store;
  isLoading : bool;
  pendingCount : Z;
  completedTasks : gset string;
  inFlight : list Submission;
  pollers : list Poller
}.

(** [disabled={isLoading || pendingCount > 0}] of the generate button *)
Definition generateDisabled (app : App) : bool :=
  isLoading app || bool_decide (0 < pendingCount app)%Z.

(** The component after its first render and mount effect. *)
Definition mountApp (stored : option persisted) : App :=
  {| store := mountStore stored;
     isLoading := false;
     pendingCount := 0;
     completedTasks := ∅;
     inFlight := [];
     pollers := [] |}.

Inductive Event :=
  (** a click on the generate button, with the lyrics and options shown *)
  | Click (lyrics : string) (selectedOptions : SelectedOptions) (now : Z)
  (** [axios.post] of the [k]-th awaiting call settles: with a task id,
      or ([None]) by rejecting *)
  | PostSettled (k : nat) (task_id : option string) (clock : nat → Z)
  (** a tick of the [k]-th [pollInterval]: the reply, or ([None]) a throw;
      the request and its reply are one event, that is, a reply arrives
      before the interval fires again *)
  | PollTick (k : nat) (reply : option StatusData) (now : Z) (clock : nat → Z)
  (** a run of [updateHistoryWithCompletedTasks] from the history effect *)
  | Reconcile (fetchTaskDetails : nat → string → option TaskData)
      (pollClock clock : nat → Z)
  (** a click on an item's remove button *)
  | Remove (taskId : string) (clock : nat → Z)
  (** a confirmed click on "Clear All", shown with two items or more *)
  | Clear (clock : nat → Z).

Section Component.
Variable APP_ENABLED : bool.

(** [historyItem] of [generateMusic] *)
Definition historyItem (sub : Submission) (taskId : string) : HistoryItem :=
  {| id := Some taskId;
     prompt := Some (sub_prompt sub);
     status := Some "pending";
     timestamp := Some (sub_startTime sub);
     completedAt := None; songs := None; error := None;
     tags := Some (voiceType (sub_options sub) ++ ", "
                   ++ genre (sub_options sub) ++ ", "
                   ++ mood (sub_options sub) ++ ", "
                   ++ era (sub_options sub)) |}.

Definition step (ev : Event) (app : App) : App :=
  match ev with
  | Click lyrics selectedOptions now =>
      if generateDisabled app then app
      else if negb APP_ENABLED then app
      else
        {| store := store app;
           isLoading := true;
           pendingCount := pendingCount app;
           completedTasks := completedTasks app;
           inFlight := inFlight app ++
             [{| sub_history := st_history (store app);
                 sub_prompt := lyrics;
                 sub_options := selectedOptions;
                 sub_startTime := now |}];
           pollers := pollers app |}
  | PostSettled k task_id clock =>
      match inFlight app !! k with
      | None => app
      | Some sub =>
          match task_id with
          | Some taskId =>
              {| store := addToHistory (sub_history sub)
                            (historyItem sub taskId) clock;
                 isLoading := isLoading app;
                 pendingCount := (pendingCount app + 1)%Z;
                 completedTasks := completedTasks app;
                 inFlight := delete k (inFlight app);
                 pollers := pollers app ++
                   [{| p_taskId := taskId;
                       p_startTime := sub_startTime sub;
                       p_history := sub_history sub |}] |}
          | None =>
              {| store := store app;
                 isLoading := false;
                 pendingCount := pendingCount app;
                 completedTasks := completedTasks app;
                 inFlight := delete k (inFlight app);
                 pollers := pollers app |}
          end
      end
  | PollTick k reply now clock =>
      match pollers app !! k, reply with
      | Some p, Some data =>
          if bool_decide (sd_status data = "completed") then
            {| store := updateHistoryItem (p_history p) (p_taskId p)
                          (completedUpdates data (p_startTime p) now) clock;
               isLoading := false;
               pendingCount := (pendingCount app - 1)%Z;
               completedTasks := completedTasks app ∪ {[ p_taskId p ]};
               inFlight := inFlight app;
               pollers := delete k (pollers app) |}
          else if bool_decide (sd_status data = "failed") then
            {| store := updateHistoryItem (p_history p) (p_taskId p)
                          (failedUpdates data) clock;
               isLoading := false;
               pendingCount := (pendingCount app - 1)%Z;
               completedTasks := completedTasks app;
               inFlight := inFlight app;
               pollers := delete k (pollers app) |}
          else app
      | _, _ => app
      end
  | Reconcile fetchTaskDetails pollClock clock =>
      if hasPendingTasks (st_history (store app)) then
        {| store := updateHistoryWithCompletedTasks fetchTaskDetails
                      pollClock clock (store app);
           isLoading := isLoading app;
           pendingCount := pendingCount app;
           completedTasks := completedTasks app;
           inFlight := inFlight app;
           pollers := pollers app |}
      else app
  | Remove taskId clock =>
      {| store := removeFromHistory (st_history (store app)) taskId clock;
         isLoading := isLoading app;
         pendingCount := pendingCount app;
         completedTasks := completedTasks app;
         inFlight := inFlight app;
         pollers := pollers app |}
  | Clear clock =>
      if bool_decide (1 < length (st_history (store app)))%nat then
        {| store := clearHistory clock;
           isLoading := isLoading app;
           pendingCount := pendingCount app;
           completedTasks := ∅;
           inFlight := inFlight app;
           pollers := pollers app |}
      else app
  end.

(** The states the component can be in: mounted over any stored value,
    then any sequence of events. *)
Inductive reachable : App → Prop :=
  | reachable_mount stored : reachable (mountApp stored)
  | reachable_step ev app : reachable app → reachable (step ev app).

(** Events applied in order. *)
Definition run (evs : list Event) (app : App) : App :=
  foldl (λ a ev, step ev a) app evs.
End Component.

(** ** Sample data *)

Definition sampleSong : Song :=
  {| song_id := "s1"; song_title := "Be Mine"; song_tags := ["pop"];
     song_path := "songs/s1.mp3"; image_path := "songs/s1.png";
     finished := true |}.

Definition pendingItem (taskId : string) (t : Z) : HistoryItem :=
  {| id := Some taskId; prompt := Some "roses are red";
     status := Some "pending"; timestamp := Some t;
     completedAt := None; songs := None; error := None;
     tags := Some "female, pop, romantic, modern" |}.

Definition completedItem (taskId : string) (t c : Z) (l : list Song)
  : HistoryItem :=
  {| id := Some taskId; prompt := Some "roses are red";
     status := Some "completed"; timestamp := Some t;
     completedAt := Some c; songs := Some l; error := None;
     tags := Some "female, pop, romantic, modern" |}.

(** Five stored items, newest first. *)
Definition fiveItems : list HistoryItem :=
  [completedItem "t5" 5000 5500 [sampleSong];
   completedItem "t4" 4000 4500 [sampleSong];
   completedItem "t3" 3000 3500 [sampleSong];
   completedItem "t2" 2000 2500 [sampleSong];
   completedItem "t1" 1000 1500 [sampleSong]].

(** A clock that reads [start] in the first callback and advances by a
    millisecond per callback. *)
Definition tickingClock (start : Z) : nat → Z :=
  λ i, (start + Z.of_nat i)%Z.

Definition femaleOptions : SelectedOptions :=
  {| genre := "pop"; voiceType := "female"; mood := "romantic";
     era := "modern" |}.

Definition maleOptions : SelectedOptions :=
  {| genre := "rock"; voiceType := "male"; mood := "happy";
     era := "1980s" |}.

(** A reply of the status endpoint for a finished task. *)
Definition completedReply (l : option (list Song)) (started ended : option Z)
  : StatusData :=
  {| sd_status := "completed"; sd_songs := l;
     sd_meta := Some {| started_at := started; ended_at := ended |};
     sd_error_message := None |}.

(** A status endpoint that reports every task completed with one song. *)
Definition completedTask : TaskData :=
  {| task_status := "completed"; task_songs := Some [sampleSong];
     task_error_message := None |}.

Definition allCompleted : nat → string → option TaskData :=
  λ _ _, Some completedTask.

(** An update that writes the status alone. *)
Definition statusOnly (s : string) : Updates :=
  {| u_id := None; u_prompt := None; u_status := Some (Some s);
     u_timestamp := None; u_completedAt := None; u_songs := None;
     u_error := None; u_tags := None |}.

(** A stored item marked completed that has neither songs nor times. *)
Definition bareCompleted : HistoryItem :=
  {| id := Some "t0"; prompt := Some "roses are red";
     status := Some "completed"; timestamp := None; completedAt := None;
     songs := None; error := None; tags := None |}.

(** An item as storage may hold it, with any text as its status. *)
Definition statusItem (s : string) (t : Z) : HistoryItem :=
  {| id := Some "t7"; prompt := Some "roses are red"; status := Some s;
     timestamp := Some t; completedAt := None; songs := None;
     error := None; tags := None |}.

(** One generation submitted and accepted as task t1. *)
Definition submitOne : list Event :=
  [Click "roses are red" femaleOptions 1000;
   PostSettled 0 (Some "t1") (tickingClock 1001)].

(** ** Items as the save leaves them *)

(** What [validItem] establishes of an item when the clock does not read
    [0]: [id] and [prompt] are strings, the status is one of the three
    values and the timestamp is truthy. *)
Definition wellFormed (item : HistoryItem) : Prop :=
  is_Some (id item) ∧ is_Some (prompt item)
  ∧ validStatus (status item) = true
  ∧ ∃ t, timestamp item = Some t ∧ t ≠ 0%Z.

(** The property of the data model: a completed item carries a song list
    and a completion time not before its timestamp. *)
Definition completedCarries (item : HistoryItem) : Prop :=
  status item = Some "completed" →
  (∃ l, songs item = Some l)
  ∧ ∃ c t, completedAt item = Some c ∧ timestamp item = Some t ∧ (t ≤ c)%Z.

(** ** What holds of the session's bookkeeping

    [pendingCount] counts the live per-submission pollers, at most one
    call of [generateMusic] is awaiting its reply or being polled, and
    [isLoading] is set exactly while there is one. *)
Definition sessionInvariant (app : App) : Prop :=
  pendingCount app = Z.of_nat (length (pollers app))
  ∧ (length (inFlight app) + length (pollers app) ≤ 1)%nat
  ∧ (isLoading app = true ↔ inFlight app ≠ [] ∨ pollers app ≠ []).

(** ** The generation time badge *)

(** The fill that [padStart] puts in front: the first [n] characters of
    [padString] repeated ([rest] is what is left of the current copy). *)
Fixpoint padding (n : nat) (padString rest : string) : string :=
  match n with
  | O => ""
  | S n' =>
      match rest with
      | String c rest' => String c (padding n' padString rest')
      | EmptyString =>
          match padString with
          | String c rest' => String c (padding n' padString rest')
          | EmptyString => ""
          end
      end
  end.

(** [String.prototype.padStart] *)
Definition padStart (targetLength : nat) (padString s : string) : string :=
  padding (targetLength - String.length s) padString padString +:+ s.

(** [minutes] and [seconds] of [GenerationTime]: [Math.floor] of a
    quotient by a positive number is [Z.div], and [%] takes the sign of
    the dividend, as [Z.rem] does. *)
Definition generationMinutes (duration : Z) : Z :=
  (duration `div` (1000 * 60))%Z.

Definition generationSeconds (duration : Z) : Z :=
  ((duration `rem` (1000 * 60)) `div` 1000)%Z.

(** [GenerationTime]: the text it renders, or [None] when it renders
    nothing.  [pretty] is the decimal text of an integer, which is what
    JavaScript prints of it. *)
Definition GenerationTime (startTime endTime : option Z) : option string :=
  match startTime, endTime with
  | Some s, Some e =>
      if bool_decide (s = 0%Z) || bool_decide (e = 0%Z) then None
      else
        let duration := (e - s)%Z in
        Some ("Generated in " +:+ pretty (generationMinutes duration)
              +:+ ":" +:+ padStart 2 "0" (pretty (generationSeconds duration)))
  | _, _ => None
  end.

(** What an item's row of the history list renders for
    [item.status === 'completed' && item.timestamp && item.completedAt &&
    <GenerationTime ... />]: nothing when the chain stops at [false] or
    [undefined], the text 0 when it stops at the number [0], the badge
    otherwise. *)
Definition generationBadge (item : HistoryItem) : option string :=
  if bool_decide (status item = Some "completed") then
    match timestamp item with
    | None => None
    | Some t =>
        if bool_decide (t = 0%Z) then Some "0"
        else
          match completedAt item with
          | None => None
          | Some c =>
              if bool_decide (c = 0%Z) then Some "0"
              else GenerationTime (Some t) (Some c)
          end
    end
  else None.

(** ** Song links *)

(** [String.prototype.startsWith] *)
Fixpoint startsWith (searchString s : string) : bool :=
  match searchString with
  | EmptyString => true
  | String a rest =>
      match s with
      | String b s' => Ascii.eqb a b && startsWith rest s'
      | EmptyString => false
      end
  end.

(** [path.slice(1)] *)
Definition slice1 (path : string) : string :=
  match path with
  | String _ rest => rest
  | EmptyString => ""
  end.

(** What [SongDisplay] shows of a finished song. *)
Record SongView := {
  view_songUrl : string;
  view_imageUrl : string;
  view_tags : list string;
  view_download : string
}.

Section Browser.
(** [window.location.origin] and [window.location.hostname] *)
Variable origin hostname : string.

Definition BASE_URL : string :=
  if bool_decide (hostname = "localhost") then "/" else "/lyrics-to-song/".

(** [getSongUrl] of [SongDisplay] *)
Definition getSongUrl (path : string) : string :=
  if startsWith "http" path then path
  else
    let cleanPath := if startsWith "/" path then slice1 path else path in
    origin +:+ BASE_URL +:+ cleanPath.

(** [SongDisplay]: nothing for a song that is not finished. *)
Definition SongDisplay (song : Song) : option SongView :=
  if negb (finished song) then None
  else Some {| view_songUrl := getSongUrl (song_path song);
               view_imageUrl := getSongUrl (image_path song);
               view_tags := take 3 (song_tags song);
               view_download := song_title song +:+ ".mp3" |}.
End Browser.

(** ** The request preview *)

(** [String.prototype.toLowerCase] on one code unit below 256: the
    capitals of ASCII and of Latin-1 are 32 below their small letters. *)
Definition lowerChar (c : ascii) : ascii :=
  let n := nat_of_ascii c in
  if ((65 <=? n)%nat && (n <=? 90)%nat)
     || ((192 <=? n)%nat && (n <=? 214)%nat)
     || ((216 <=? n)%nat && (n <=? 222)%nat)
  then ascii_of_nat (n + 32) else c.

Fixpoint toLowerCase (s : string) : string :=
  match s with
  | String c rest => String (lowerChar c) (toLowerCase rest)
  | EmptyString => ""
  end.

Record WebhookConfig := {
  endpoint : string;
  secret : string
}.

Record Config := {
  service_mode : string;
  webhook_config : WebhookConfig
}.

Record PreviewRequest := {
  pv_model : string;
  pv_task_type : string;
  pv_input : RequestInput;
  pv_config : Config
}.

(** [if (x) descriptionParts.push(x.toLowerCase())] *)
Definition pushLower (x : string) : list string :=
  if bool_decide (x = "") then [] else [toLowerCase x].

(** [descriptionParts] of [handlePreviewClick] *)
Definition descriptionParts (selectedOptions : SelectedOptions)
  : list string :=
  (if bool_decide (voiceType selectedOptions = "female_vocals")
   then ["female vocal"; "female singer"; "female voice"]
   else if bool_decide (voiceType selectedOptions = "male_vocals")
   then ["male vocal"; "male singer"; "male voice"]
   else [])
  ++ pushLower (genre selectedOptions)
  ++ pushLower (mood selectedOptions)
  ++ pushLower (era selectedOptions).

(** The request that [handlePreviewClick] puts in the preview dialog. *)
Definition previewRequest (selectedOptions : SelectedOptions)
    (lyrics : string) (random : Z) : PreviewRequest :=
  {| pv_model := "music-u";
     pv_task_type := "generate_music";
     pv_input :=
       {| gpt_description_prompt :=
            join ", " (descriptionParts selectedOptions);
          lyrics_type := "user";
          make_instrumental := false;
          negative_tags :=
            if bool_decide (voiceType selectedOptions = "female_vocals")
            then "male_vocals,male_voice,male_singer"
            else "female_vocals,female_voice,female_singer";
          in_prompt := "[Verse]" +:+ String "010" lyrics;
          seed := random;
          in_tags :=
            if bool_decide (voiceType selectedOptions = "female_vocals")
            then "female_vocals,female_voice,female_singer"
            else "male_vocals,male_voice,male_singer" |};
     pv_config :=
       {| service_mode := "public";
          webhook_config := {| endpoint := ""; secret := "" |} |} |}.

(** ** The lyrics form *)

Definition MIN_LYRICS_CHARS : nat := 25.
Definition MAX_LYRICS_CHARS : nat := 900.

Inductive NotificationType := NSuccess | NError | NWarning.

Record Notification := {
  n_type : NotificationType;
  n_message : string;
  n_duration : option Z
}.

(** The state the text handlers act on: [lyricsIdea], [prompt],
    [hasFilteredContent], [showLyricsInput] and [notification]. *)
Record Form := {
  f_lyricsIdea : string;
  f_prompt : string;
  f_hasFilteredContent : bool;
  f_showLyricsInput : bool;
  f_notification : option Notification
}.

Definition initialForm : Form :=
  {| f_lyricsIdea := ""; f_prompt := ""; f_hasFilteredContent := false;
     f_showLyricsInput := false; f_notification := None |}.

Definition filterWarning : Notification :=
  {| n_type := NWarning;
     n_message := "Please keep the content family-friendly. Inappropriate words have been removed.";
     n_duration := Some 5000%Z |}.

Inductive FormEvent :=
  (** typing in the idea box *)
  | TypeIdea (text : string)
  (** typing in the lyrics box *)
  | TypeLyrics (text : string)
  (** the assistant switch *)
  | ToggleAssistant (checked : bool)
  (** the notification is closed, or its timer runs out *)
  | CloseNotification.

Section Filter.
(** [profanityFilter.cleanText], from a service outside the available
    sources: the cleaned text and whether anything was filtered. *)
Variable cleanText : string → string * bool.

(** [handleLyricsChange]; the second component is the notification the
    handler sets, if it sets one. *)
Definition handleLyricsChange (text : string) (form : Form)
  : Form * option Notification :=
  if bool_decide (String.length text ≤ MAX_LYRICS_CHARS)%nat then
    let cleaned := fst (cleanText text) in
    let wasFiltered := snd (cleanText text) in
    if wasFiltered && negb (f_hasFilteredContent form) then
      ({| f_lyricsIdea := cleaned; f_prompt := f_prompt form;
          f_hasFilteredContent := true;
          f_showLyricsInput := f_showLyricsInput form;
          f_notification := Some filterWarning |}, Some filterWarning)
    else
      ({| f_lyricsIdea := cleaned; f_prompt := f_prompt form;
          f_hasFilteredContent := f_hasFilteredContent form;
          f_showLyricsInput := f_showLyricsInput form;
          f_notification := f_notification form |}, None)
  else (form, None).

(** [handlePromptChange] *)
Definition handlePromptChange (text : string) (form : Form)
  : Form * option Notification :=
  let cleaned := fst (cleanText text) in
  let wasFiltered := snd (cleanText text) in
  if wasFiltered && negb (f_hasFilteredContent form) then
    ({| f_lyricsIdea := f_lyricsIdea form; f_prompt := cleaned;
        f_hasFilteredContent := true;
        f_showLyricsInput := f_showLyricsInput form;
        f_notification := Some filterWarning |}, Some filterWarning)
  else
    ({| f_lyricsIdea := f_lyricsIdea form; f_prompt := cleaned;
        f_hasFilteredContent := f_hasFilteredContent form;
        f_showLyricsInput := f_showLyricsInput form;
        f_notification := f_notification form |}, None).

(** One event of the form: the new state and the notification set. *)
Definition formStep (ev : FormEvent) (form : Form)
  : Form * option Notification :=
  match ev with
  | TypeIdea text => handleLyricsChange text form
  | TypeLyrics text =>
      if bool_decide (String.length text ≤ MAX_LYRICS_CHARS)%nat
      then handlePromptChange text form
      else (form, None)
  | ToggleAssistant checked =>
      ({| f_lyricsIdea := if checked then f_lyricsIdea form else "";
          f_prompt := f_prompt form;
          f_hasFilteredContent := f_hasFilteredContent form;
          f_showLyricsInput := checked;
          f_notification := f_notification form |}, None)
  | CloseNotification =>
      ({| f_lyricsIdea := f_lyricsIdea form; f_prompt := f_prompt form;
          f_hasFilteredContent := f_hasFilteredContent form;
          f_showLyricsInput := f_showLyricsInput form;
          f_notification := None |}, None)
  end.

(** Events in order: the last state and every notification set. *)
Fixpoint formRun (evs : list FormEvent) (form : Form)
  : Form * list Notification :=
  match evs with
  | [] => (form, [])
  | ev :: rest =>
      let after := formStep ev form in
      let final := formRun rest (fst after) in
      (fst final, (option_list (snd after) ++ snd final)%list)
  end.
End Filter.

(** ** The music player *)

Record CurrentSong := {
  cs_url : string;
  cs_title : string
}.

(** What the player reads of the store of [usePlayerStore]. *)
Record PlayerStore := {
  currentSong : option CurrentSong;
  isPlaying : bool
}.

Section Player.
(** The setters of the player store, which is outside the available
    sources. *)
Variable setCurrentSong : CurrentSong → PlayerStore → PlayerStore.
Variable setIsPlaying : bool → PlayerStore → PlayerStore.

(** [isCurrentSong] of [CustomMusicPlayer] *)
Definition isCurrentSong (src : string) (st : PlayerStore) : bool :=
  bool_decide (cs_url <$> currentSong st = Some src).

(** [handlePlay]; [isCurrentSong] and [isPlaying] are read from the store
    as rendered, the setters act in turn. *)
Definition handlePlay (src title : string) (st : PlayerStore) : PlayerStore :=
  if isCurrentSong src st then setIsPlaying (negb (isPlaying st)) st
  else setIsPlaying true
         (setCurrentSong {| cs_url := src; cs_title := title |} st).

(** Whether the player of [src] shows the pause icon. *)
Definition showsPause (src : string) (st : PlayerStore) : bool :=
  isCurrentSong src st && isPlaying st.
End Player.

(** Setters that assign their field. *)
Definition assignCurrentSong (song : CurrentSong) (st : PlayerStore)
  : PlayerStore :=
  {| currentSong := Some song; isPlaying := isPlaying st |}.

Definition assignIsPlaying (playing : bool) (st : PlayerStore) : PlayerStore :=
  {| currentSong := currentSong st; isPlaying := playing |}.

(** A filter that removes nothing and flags the texts that begin with x. *)
Definition flagX (text : string) : string * bool :=
  (text, startsWith "x" text).

(** ** Orderly sessions

    What the page can be expected to meet: a stored list, if any, whose
    items have a timestamp other than [0] and carry what a completed item
    should; a clock that does not read [0] at a click; task ids that are
    new when they are issued; and a poll clock that is not behind the
    timestamp of a pending item. *)
Definition conforming (item : HistoryItem) : Prop :=
  (∃ t, timestamp item = Some t ∧ t ≠ 0%Z) ∧ completedCarries item.

Definition orderly (ev : Event) (app : App) : Prop :=
  match ev with
  | Click _ _ now => now ≠ 0%Z
  | PostSettled k task_id _ =>
      ∀ sub taskId item,
        inFlight app !! k = Some sub → task_id = Some taskId →
        item ∈ sub_history sub → id item ≠ Some taskId
  | Reconcile _ pollClock _ =>
      ∀ parsedHistory i item t,
        st_storage (store app) = Some (Encoded parsedHistory) →
        parsedHistory !! i = Some item →
        status item = Some "pending" → timestamp item = Some t →
        (t ≤ pollClock i)%Z
  | _ => True
  end.

Inductive orderlyReachable (APP_ENABLED : bool) : App → Prop :=
  | orderly_mount stored :
      (∀ l, stored = Some (Encoded l) → Forall conforming l) →
      orderlyReachable APP_ENABLED (mountApp stored)
  | orderly_step ev app :
      orderlyReachable APP_ENABLED app → orderly ev app →
      orderlyReachable APP_ENABLED (step APP_ENABLED ev app).

(** What an orderly session keeps: conforming items in the history, in
    storage and in the histories its closures captured, and pollers whose
    task is not in the history they captured. *)
Definition carriesInvariant (app : App) : Prop :=
  Forall conforming (st_history (store app))
  ∧ (∀ l, st_storage (store app) = Some (Encoded l) → Forall conforming l)
  ∧ Forall (λ sub, Forall conforming (sub_history sub)
                   ∧ sub_startTime sub ≠ 0%Z) (inFlight app)
  ∧ Forall (λ p, Forall conforming (p_history p)
                 ∧ ∀ item, item ∈ p_history p → id item ≠ Some (p_taskId p))
           (pollers app).

(** ** Sample sessions *)

(** Two stored items. *)
Definition twoItems : list HistoryItem :=
  [completedItem "b" 200 250 [sampleSong];
   completedItem "a" 100 150 [sampleSong]].

(** Over the two stored items a generation is accepted as task t1, and
    "Clear All" is confirmed while the task is pending. *)
Definition clearedWhilePending : App :=
  run true (submitOne ++ [Clear (tickingClock 1500)])
    (mountApp (Some (Encoded twoItems))).

(** A generation is accepted as task t1 and the reconciliation poller
    finds it completed, with one song, at time 2000. *)
Definition reconciledFirst : App :=
  run true (submitOne ++
            [Reconcile allCompleted (tickingClock 2000) (tickingClock 2001)])
    (mountApp None).

(** The reply the poller of t1 then gets: the same song, started at 1000
    and ended at 2000. *)
Definition sameReply : StatusData :=
  completedReply (Some [sampleSong]) (Some 1000%Z) (Some 2000%Z).

(** * Properties *)

(** ** The save *)

Lemma validHistory_lookup clock (l : list HistoryItem) i :
  validHistory clock l !! i = validItem (clock i) <$> l !! i.
Proof. unfold validHistory. by rewrite list_lookup_imap. Qed.

Lemma validHistory_length clock (l : list HistoryItem) :
  length (validHistory clock l) = length l.
Proof. unfold validHistory. by rewrite length_imap. Qed.

Lemma validHistory_cons clock item (l : list HistoryItem) :
  validHistory clock (item :: l)
  = validItem (clock 0) item :: validHistory (clock ∘ S) l.
Proof. reflexivity. Qed.

Lemma validItem_wellFormed now item :
  now ≠ 0%Z → wellFormed (validItem now item).
Proof.
  intros Hnow. unfold wellFormed, validItem; simpl.
  split; [by eexists|]. split; [by eexists|]. split.
  - destruct (validStatus (status item)) eqn:E; [done|].
    by vm_compute.
  - unfold orNow. destruct (timestamp item) as [t|]; [|by eauto].
    case_bool_decide; eauto.
Qed.

Lemma validItem_fixed now item : wellFormed item → validItem now item = item.
Proof.
  intros ([i Hi] & [p Hp] & Hs & t & Ht & Hnz).
  destruct item as [i' p' s' t' c' so' e' ta']; simpl in *; subst.
  unfold validItem; simpl. rewrite Hs. unfold orNow.
  by rewrite bool_decide_eq_false_2.
Qed.

Lemma validHistory_fixed clock (l : list HistoryItem) :
  Forall wellFormed l → validHistory clock l = l.
Proof.
  intros Hl. revert clock.
  induction Hl as [|item l Hitem _ IH]; intros clock; [done|].
  by rewrite validHistory_cons, validItem_fixed, IH.
Qed.

Lemma validHistory_wellFormed clock (l : list HistoryItem) :
  (∀ i, clock i ≠ 0%Z) → Forall wellFormed (validHistory clock l).
Proof.
  intros Hclock. apply Forall_lookup. intros i item.
  rewrite validHistory_lookup. intros Hi.
  apply fmap_Some in Hi as (raw & _ & ->).
  by apply validItem_wellFormed.
Qed.

(** Saving a list that was saved before writes it back as it is. *)
Lemma validHistory_saved clock saveClock (l : list HistoryItem) :
  (∀ i, saveClock i ≠ 0%Z) →
  validHistory clock (validHistory saveClock l) = validHistory saveClock l.
Proof. intros H. by apply validHistory_fixed, validHistory_wellFormed. Qed.

(** C7: the save normalises every item: a missing status becomes pending,
    a missing timestamp becomes the clock reading of the save, a status
    other than pending, completed or failed becomes pending (one of the
    three is kept, and so is a truthy timestamp and every other field);
    the list of normalised items is the in-memory state, and the same
    list is what storage holds. *)
Theorem updateHistory_normalizes (clock : nat → Z)
    (newHistory : list HistoryItem) :
  st_storage (updateHistory clock newHistory)
    = Some (Encoded (st_history (updateHistory clock newHistory)))
  ∧ length (st_history (updateHistory clock newHistory)) = length newHistory
  ∧ ∀ i item, newHistory !! i = Some item →
      ∃ saved,
        st_history (updateHistory clock newHistory) !! i = Some saved
        ∧ (status item = None → status saved = Some "pending")
        ∧ (timestamp item = None → timestamp saved = Some (clock i))
        ∧ (∀ s, status item = Some s →
             s ≠ "pending" → s ≠ "completed" → s ≠ "failed" →
             status saved = Some "pending")
        ∧ (∀ s, status item = Some s →
             s = "pending" ∨ s = "completed" ∨ s = "failed" →
             status saved = Some s)
        ∧ (∀ t, timestamp item = Some t → t ≠ 0%Z →
             timestamp saved = Some t)
        ∧ completedAt saved = completedAt item
        ∧ songs saved = songs item
        ∧ error saved = error item
        ∧ tags saved = tags item.
Proof.
  split; [done|]. split; [apply validHistory_length|].
  intros i item Hi. exists (validItem (clock i) item). simpl.
  split; [by rewrite validHistory_lookup, Hi|].
  unfold validItem; simpl.
  repeat split.
  - by intros ->.
  - by intros ->.
  - intros s -> H1 H2 H3. simpl. rewrite bool_decide_eq_false_2; [done|].
    rewrite !elem_of_cons, elem_of_nil. tauto.
  - intros s -> H. simpl. rewrite bool_decide_eq_true_2; [done|].
    rewrite !elem_of_cons, elem_of_nil. tauto.
  - intros t -> Ht. simpl. by rewrite bool_decide_eq_false_2.
Qed.

(** The save at work: an item with an unknown status and a timestamp, in
    second place of three. *)
Lemma updateHistory_normalizes_witness :
  ∃ saved,
    st_history (updateHistory (tickingClock 100)
                  [bareCompleted; statusItem "done" 7; bareCompleted])
      !! 1 = Some saved
    ∧ status saved = Some "pending"
    ∧ timestamp saved = Some 7%Z
    ∧ st_storage (updateHistory (tickingClock 100)
                    [bareCompleted; statusItem "done" 7; bareCompleted])
      = Some (Encoded (st_history (updateHistory (tickingClock 100)
                         [bareCompleted; statusItem "done" 7; bareCompleted]))).
Proof.
  destruct (updateHistory_normalizes (tickingClock 100)
              [bareCompleted; statusItem "done" 7; bareCompleted])
    as (Hstorage & _ & Hitems).
  destruct (Hitems 1 (statusItem "done" 7) eq_refl)
    as (saved & Hlookup & _ & _ & Hunknown & _ & Htime & _).
  exists saved. split; [exact Hlookup|].
  split; [by apply (Hunknown "done")|].
  split; [by apply (Htime 7%Z)|exact Hstorage].
Defined.

(** ** Adding *)

Lemma addToHistory_length history item clock :
  length (st_history (addToHistory history item clock)) = S (length history).
Proof.
  unfold addToHistory, updateHistory. cbn [st_history].
  by rewrite validHistory_length.
Qed.

(** C10: the entry that [addToHistory] stores has status pending and no
    completedAt, whatever the input item carries, keeps the input's other
    fields as the save normalises them, and is put in front of the
    existing list (which the save writes back, and leaves as it is when
    it is a list the store saved); storage holds the same list. *)
Theorem addToHistory_forces_pending (history : list HistoryItem)
    (item : HistoryItem) (clock : nat → Z) :
  ∃ entry,
    st_history (addToHistory history item clock)
      = entry :: validHistory (clock ∘ S) history
    ∧ st_storage (addToHistory history item clock)
      = Some (Encoded (entry :: validHistory (clock ∘ S) history))
    ∧ status entry = Some "pending"
    ∧ completedAt entry = None
    ∧ id entry = orEmpty (id item)
    ∧ prompt entry = orEmpty (prompt item)
    ∧ timestamp entry = orNow (clock 0) (timestamp item)
    ∧ songs entry = songs item
    ∧ error entry = error item
    ∧ tags entry = tags item
    ∧ (∀ saveClock raw, (∀ i, saveClock i ≠ 0%Z) →
         history = validHistory saveClock raw →
         validHistory (clock ∘ S) history = history).
Proof.
  eexists. split; [reflexivity|]. split; [reflexivity|].
  repeat (split; [reflexivity|]).
  intros saveClock raw Hclock ->. by apply validHistory_saved.
Qed.

(** Adding an item that claims to be completed to the five stored items. *)
Lemma addToHistory_forces_pending_witness :
  ∃ entry,
    st_history (addToHistory fiveItems
                  (completedItem "t6" 6000 6500 [sampleSong])
                  (tickingClock 7000))
      = entry :: fiveItems
    ∧ status entry = Some "pending" ∧ completedAt entry = None.
Proof.
  destruct (addToHistory_forces_pending fiveItems
              (completedItem "t6" 6000 6500 [sampleSong])
              (tickingClock 7000))
    as (entry & Hh & _ & Hs & Hc & _).
  exists entry. split; [|by split].
  rewrite Hh. reflexivity.
Defined.

(** C1: with five items stored, [addToHistory] stores six: nothing is
    dropped, and the oldest item is still the last one. *)
Theorem addToHistory_exceeds_max :
  length fiveItems = MAX_HISTORY_ITEMS
  ∧ length (st_history (addToHistory fiveItems (pendingItem "t6" 6000)
                          (tickingClock 6000))) = 6
  ∧ ¬ (length (st_history (addToHistory fiveItems (pendingItem "t6" 6000)
                             (tickingClock 6000))) ≤ MAX_HISTORY_ITEMS)%nat
  ∧ last (st_history (addToHistory fiveItems (pendingItem "t6" 6000)
                        (tickingClock 6000)))
    = Some (completedItem "t1" 1000 1500 [sampleSong])
  ∧ st_storage (addToHistory fiveItems (pendingItem "t6" 6000)
                  (tickingClock 6000))
    = Some (Encoded (pendingItem "t6" 6000 :: fiveItems)).
Proof.
  split; [reflexivity|]. split; [reflexivity|].
  split; [rewrite addToHistory_length; unfold MAX_HISTORY_ITEMS; simpl; lia|].
  split; reflexivity.
Qed.

(** ** Updating and removing *)

Lemma fmap_fixed {A} (f : A → A) (l : list A) :
  (∀ x, x ∈ l → f x = x) → f <$> l = l.
Proof.
  induction l as [|x l IH]; intros H; [done|].
  rewrite fmap_cons, H by apply list_elem_of_here.
  rewrite IH; [done|]. intros y Hy. apply H. by apply list_elem_of_further.
Qed.

Lemma filter_fixed {A} (P : A → Prop) `{!∀ x, Decision (P x)} (l : list A) :
  (∀ x, x ∈ l → P x) → filter P l = l.
Proof.
  induction l as [|x l IH]; intros Hall; [done|].
  rewrite filter_cons_True by apply Hall, list_elem_of_here.
  rewrite IH; [done|]. intros y Hy. apply Hall. by apply list_elem_of_further.
Qed.

(** With no matching item, [updateHistoryItem] saves the list it sees. *)
Lemma updateHistoryItem_missing history taskId updates clock :
  (∀ item, item ∈ history → id item ≠ Some taskId) →
  updateHistoryItem history taskId updates clock = updateHistory clock history.
Proof.
  intros H. unfold updateHistoryItem. f_equal.
  apply fmap_fixed. intros item Hitem.
  by rewrite bool_decide_eq_false_2 by by apply H.
Qed.

Lemma removeFromHistory_missing history taskId clock :
  (∀ item, item ∈ history → id item ≠ Some taskId) →
  removeFromHistory history taskId clock = updateHistory clock history.
Proof.
  intros H. unfold removeFromHistory. f_equal. by apply filter_fixed.
Qed.

Lemma updateHistory_saved clock saveClock raw :
  (∀ i, saveClock i ≠ 0%Z) →
  updateHistory clock (validHistory saveClock raw)
  = updateHistory saveClock raw.
Proof.
  intros H. unfold updateHistory. by rewrite validHistory_saved.
Qed.

(** ** Loading *)

(** C6: when the stored text is read and does not parse, the mounted
    store has an empty list and the key is removed; nothing is recovered
    from the text. *)
Theorem load_corrupted_clears (text : string) :
  text ≠ "" →
  st_history (mountStore (Some (Unparseable text))) = []
  ∧ st_storage (mountStore (Some (Unparseable text))) = None.
Proof.
  intros Htext. unfold mountStore, loadHistory; simpl.
  by rewrite bool_decide_eq_false_2.
Qed.

Lemma load_corrupted_clears_witness :
  st_history (mountStore (Some (Unparseable "[{id:"))) = []
  ∧ st_storage (mountStore (Some (Unparseable "[{id:"))) = None.
Proof. apply load_corrupted_clears. done. Defined.

(** The empty text is falsy: the mount effect does not read it, and it
    stays under the key. *)
Lemma load_empty_text_kept :
  mountStore (Some (Unparseable ""))
  = {| st_history := []; st_storage := Some (Unparseable "") |}.
Proof. reflexivity. Qed.

(** A stored list is loaded with only its statuses coerced. *)
Lemma load_encoded parsedHistory :
  mountStore (Some (Encoded parsedHistory))
  = {| st_history := loadedItem <$> parsedHistory;
       st_storage := Some (Encoded parsedHistory) |}.
Proof. reflexivity. Qed.

(** ** The generation request *)

(** C8: with the female voice selected, the request that is submitted has
    the three female tags joined by commas as its tags and the three male
    tags as its negative tags; with any other selection (the male voice,
    or none yet) it has the three male tags as its tags and the three
    female tags as its negative tags; so the voice tags are those of the
    selected gender, the negative tags those of the other, and no tag is
    both a voice tag and a negative tag. *)
Theorem female_request_tags (selectedOptions : SelectedOptions)
    (lyrics : string) (random : Z) :
  (voiceType selectedOptions = "female" →
     ∃ request,
       submittedRequest true selectedOptions lyrics random = Some request
       ∧ in_tags (input request) = "female_vocals,female_voice,female_singer"
       ∧ negative_tags (input request) = "male_vocals,male_voice,male_singer")
  ∧ (voiceType selectedOptions ≠ "female" →
     ∃ request,
       submittedRequest true selectedOptions lyrics random = Some request
       ∧ in_tags (input request) = "male_vocals,male_voice,male_singer"
       ∧ negative_tags (input request)
         = "female_vocals,female_voice,female_singer")
  ∧ (∀ tag, tag ∈ voiceTags selectedOptions →
       tag ∉ negativeTags selectedOptions)
  ∧ (voiceType selectedOptions = "female" →
     voiceTags selectedOptions
       = ["female_vocals"; "female_voice"; "female_singer"]
     ∧ negativeTags selectedOptions
       = ["male_vocals"; "male_voice"; "male_singer"])
  ∧ (voiceType selectedOptions ≠ "female" →
     voiceTags selectedOptions = ["male_vocals"; "male_voice"; "male_singer"]
     ∧ negativeTags selectedOptions
       = ["female_vocals"; "female_voice"; "female_singer"]).
Proof.
  split; [|split; [|split; [|split]]].
  - intros Hfemale. eexists. split; [reflexivity|].
    unfold requestData, voiceTags, negativeTags, isFemaleSinger; simpl.
    rewrite bool_decide_eq_true_2 by done. by split.
  - intros Hother. eexists. split; [reflexivity|].
    unfold requestData, voiceTags, negativeTags, isFemaleSinger; simpl.
    rewrite bool_decide_eq_false_2 by done. by split.
  - intros tag. unfold voiceTags, negativeTags.
    destruct (isFemaleSinger selectedOptions); unfold femaleTags, maleTags;
      rewrite !elem_of_cons, elem_of_nil;
      intros [->|[->|[->|[]]]]; intros [?|[?|[?|[]]]]; done.
  - intros Hfemale. unfold voiceTags, negativeTags, isFemaleSinger.
    by rewrite bool_decide_eq_true_2.
  - intros Hother. unfold voiceTags, negativeTags, isFemaleSinger.
    by rewrite bool_decide_eq_false_2.
Qed.

(** The female voice selected, and the male voice selected. *)
Lemma female_request_tags_witness :
  (∃ request,
     submittedRequest true femaleOptions "roses are red" 424242 = Some request
     ∧ in_tags (input request) = "female_vocals,female_voice,female_singer"
     ∧ negative_tags (input request) = "male_vocals,male_voice,male_singer")
  ∧ (∃ request,
       submittedRequest true maleOptions "roses are red" 424242 = Some request
       ∧ in_tags (input request) = "male_vocals,male_voice,male_singer"
       ∧ negative_tags (input request)
         = "female_vocals,female_voice,female_singer").
Proof.
  split.
  - apply (female_request_tags femaleOptions "roses are red" 424242).
    reflexivity.
  - apply (female_request_tags maleOptions "roses are red" 424242).
    discriminate.
Defined.

(** With the feature flag off nothing is submitted. *)
Lemma submittedRequest_disabled selectedOptions lyrics random :
  submittedRequest false selectedOptions lyrics random = None.
Proof. reflexivity. Qed.

(** ** The reconciliation poller *)

Lemma checkTask_completed data now item :
  status item = Some "pending" → task_status data = "completed" →
  checkTask (Some data) now item
  = ({| id := id item; prompt := prompt item; status := Some "completed";
        timestamp := timestamp item; completedAt := Some now;
        songs := Some (default [] (task_songs data));
        error := None; tags := tags item |}, true).
Proof.
  intros Hp Hc. unfold checkTask.
  by rewrite Hp, Hc.
Qed.

Lemma checkTask_failed data now item :
  status item = Some "pending" → task_status data = "failed" →
  checkTask (Some data) now item
  = ({| id := id item; prompt := prompt item; status := Some "failed";
        timestamp := timestamp item; completedAt := Some now;
        songs := None; error := task_error_message data;
        tags := tags item |}, true).
Proof.
  intros Hp Hf. unfold checkTask.
  by rewrite Hp, Hf.
Qed.



Lemma checkTask_not_pending taskDetails now item :
  status item ≠ Some "pending" → checkTask taskDetails now item = (item, false).
Proof. intros H. unfold checkTask. by rewrite bool_decide_eq_false_2. Qed.

(** When the callback of some item flags an update, the poller saves the
    list of the callbacks' results. *)
Lemma poller_saves fetchTaskDetails pollClock clock st parsedHistory i item :
  st_storage st = Some (Encoded parsedHistory) →
  parsedHistory !! i = Some item →
  snd (checkTask (fetchTaskDetails i (idText (id item))) (pollClock i) item)
    = true →
  updateHistoryWithCompletedTasks fetchTaskDetails pollClock clock st
  = updateHistory clock
      (fst <$> imap (λ k x, checkTask (fetchTaskDetails k (idText (id x)))
                              (pollClock k) x) parsedHistory).
Proof.
  intros Hst Hi Hflag. unfold updateHistoryWithCompletedTasks. rewrite Hst.
  match goal with |- (if ?b then _ else _) = _ => assert (b = true) as -> end;
    [|done].
  apply existsb_exists. eexists. split; [|exact Hflag].
  apply list_elem_of_In, list_elem_of_lookup. exists i.
  by rewrite list_lookup_imap, Hi.
Qed.

(** When no callback flags an update, the poller writes nothing. *)
Lemma poller_idle fetchTaskDetails pollClock clock st parsedHistory :
  st_storage st = Some (Encoded parsedHistory) →
  (∀ i item, parsedHistory !! i = Some item →
     snd (checkTask (fetchTaskDetails i (idText (id item))) (pollClock i) item)
       = false) →
  updateHistoryWithCompletedTasks fetchTaskDetails pollClock clock st = st.
Proof.
  intros Hst Hnone. unfold updateHistoryWithCompletedTasks. rewrite Hst.
  match goal with |- (if ?b then _ else _) = _ => destruct b eqn:E end;
    [|done].
  apply existsb_exists in E as (r & Hin & Hr).
  apply list_elem_of_In, list_elem_of_lookup in Hin as [i Hi].
  rewrite list_lookup_imap in Hi.
  destruct (parsedHistory !! i) as [item|] eqn:Hitem; [|done].
  injection Hi as <-. by rewrite (Hnone i item) in Hr.
Qed.


Lemma checkTask_unflagged taskDetails now item :
  snd (checkTask taskDetails now item) = false →
  fst (checkTask taskDetails now item) = item.
Proof.
  unfold checkTask. case_bool_decide; [|done].
  destruct taskDetails as [data|]; [|done].
  by destruct (bool_decide (task_status data = "completed")
               || bool_decide (task_status data = "failed")).
Qed.



(** ** Completed items *)

Lemma validItem_keeps_completedCarries now item :
  timestamp item ≠ Some 0%Z →
  completedCarries item → completedCarries (validItem now item).
Proof.
  intros Hnz Hitem Hstatus.
  assert (status item = Some "completed") as Hs.
  { unfold validItem in Hstatus; simpl in Hstatus.
    destruct (validStatus (status item)); [done|discriminate]. }
  destruct (Hitem Hs) as (Hsongs & c & t & Hc & Ht & Hle).
  split; [exact Hsongs|]. exists c, t.
  unfold validItem, orNow; simpl. rewrite Ht.
  rewrite bool_decide_eq_false_2 by congruence. done.
Qed.

Lemma validHistory_keeps_completedCarries clock (l : list HistoryItem) :
  Forall (λ x, completedCarries x ∧ timestamp x ≠ Some 0%Z) l →
  Forall completedCarries (validHistory clock l).
Proof.
  intros Hl. apply Forall_lookup. intros i item.
  rewrite validHistory_lookup. intros Hi.
  apply fmap_Some in Hi as (x & Hx & ->).
  destruct (Forall_lookup_1 _ _ _ _ Hl Hx) as [Hcarries Hnz].
  by apply validItem_keeps_completedCarries.
Qed.

Lemma conforming_validItem now item :
  conforming item → conforming (validItem now item).
Proof.
  intros [(t & Ht & Hnz) Hcarries]. split.
  - exists t. unfold validItem, orNow; simpl. rewrite Ht.
    by rewrite bool_decide_eq_false_2.
  - apply validItem_keeps_completedCarries; [|done]. rewrite Ht. congruence.
Qed.

Lemma conforming_validHistory clock (l : list HistoryItem) :
  Forall conforming l → Forall conforming (validHistory clock l).
Proof.
  intros Hl. apply Forall_lookup. intros i item.
  rewrite validHistory_lookup. intros Hi.
  apply fmap_Some in Hi as (x & Hx & ->).
  apply conforming_validItem. by eapply Forall_lookup_1.
Qed.

Lemma conforming_updateHistory clock (l : list HistoryItem) :
  Forall conforming l →
  Forall conforming (st_history (updateHistory clock l))
  ∧ ∀ l', st_storage (updateHistory clock l) = Some (Encoded l') →
      Forall conforming l'.
Proof.
  intros Hl. split; [by apply conforming_validHistory|].
  intros l' [= <-]. by apply conforming_validHistory.
Qed.

Lemma conforming_loadedItem item :
  conforming item → conforming (loadedItem item).
Proof.
  intros [Ht Hcarries]. split; [done|].
  intros Hstatus. apply Hcarries.
  unfold loadedItem in Hstatus; simpl in Hstatus.
  by repeat case_bool_decide.
Qed.

Lemma conforming_checkTask taskDetails now item :
  conforming item →
  (status item = Some "pending" →
   ∀ t, timestamp item = Some t → (t ≤ now)%Z) →
  conforming (fst (checkTask taskDetails now item)).
Proof.
  intros [(t & Ht & Hnz) Hcarries] Hclock. unfold checkTask.
  case_bool_decide as Hpending; [|by split; [exists t|]].
  destruct taskDetails as [data|]; [|by split; [exists t|]].
  case_bool_decide as Hcompleted; simpl.
  - split; [by exists t|]. intros _. simpl.
    split; [by eexists|]. exists now, t. repeat split; try done.
    by apply Hclock.
  - case_bool_decide; simpl; [|by split; [exists t|]].
    split; [by exists t|]. intros Hstatus. discriminate Hstatus.
Qed.

Lemma conforming_poller fetchTaskDetails pollClock clock st :
  Forall conforming (st_history st) →
  (∀ l, st_storage st = Some (Encoded l) → Forall conforming l) →
  (∀ l i item t, st_storage st = Some (Encoded l) → l !! i = Some item →
     status item = Some "pending" → timestamp item = Some t →
     (t ≤ pollClock i)%Z) →
  Forall conforming
    (st_history (updateHistoryWithCompletedTasks fetchTaskDetails pollClock
                   clock st))
  ∧ ∀ l, st_storage (updateHistoryWithCompletedTasks fetchTaskDetails
                       pollClock clock st) = Some (Encoded l) →
      Forall conforming l.
Proof.
  intros Hhistory Hstorage Hclock.
  pose proof Hstorage as Hparsed. pose proof Hclock as Hpoll.
  unfold updateHistoryWithCompletedTasks.
  destruct (st_storage st) as [[text|parsed]|] eqn:Hst;
    [split; [done|intros l Hl; rewrite Hst in Hl; by apply Hstorage]|
    |split; [done|intros l Hl; rewrite Hst in Hl; by apply Hstorage]].
  match goal with |- context [if ?b then _ else _] => destruct b end;
    [|split; [done|intros l Hl; rewrite Hst in Hl; by apply Hstorage]].
  apply conforming_updateHistory, Forall_lookup. intros i x.
  rewrite list_lookup_fmap, list_lookup_imap. intros Hi.
  destruct (parsed !! i) as [item|] eqn:Hitem; [|done].
  simpl in Hi. injection Hi as <-.
  apply conforming_checkTask.
  - eapply Forall_lookup_1; [by apply Hparsed|exact Hitem].
  - intros Hpending t Ht. by eapply Hpoll.
Qed.

Lemma mountApp_carriesInvariant stored :
  (∀ l, stored = Some (Encoded l) → Forall conforming l) →
  carriesInvariant (mountApp stored).
Proof.
  intros Hstored. unfold carriesInvariant.
  cbn [mountApp store inFlight pollers].
  destruct stored as [[text|parsed]|].
  - unfold mountStore, loadHistory; cbn [st_storage st_history].
    case_bool_decide; cbn [st_storage st_history];
      (split; [done|]; split; [by intros l Hl|by split]).
  - rewrite load_encoded; cbn [st_storage st_history]. split.
    { apply Forall_fmap. eapply Forall_impl; [by apply Hstored|].
      intros x. apply conforming_loadedItem. }
    split; [|by split]. intros l [= <-]. by apply Hstored.
  - unfold mountStore, loadHistory; cbn [st_storage st_history].
    split; [done|]. split; [by intros l Hl|by split].
Qed.

Lemma step_carriesInvariant APP_ENABLED ev app :
  carriesInvariant app → orderly ev app →
  carriesInvariant (step APP_ENABLED ev app).
Proof.
  intros (Hhistory & Hstorage & Hsubs & Hpolls) Hev.
  destruct ev as [lyrics opts now | k task_id clock | k reply now clock
                 | fetch pollClock clock | taskId clock | clock];
    unfold step.
  - destruct (generateDisabled app); [done|].
    destruct APP_ENABLED; [|done]. cbn [negb].
    split; [done|]. split; [done|]. split; [|done].
    cbn [inFlight]. apply Forall_app. split; [done|].
    apply Forall_singleton. by split.
  - destruct (inFlight app !! k) as [sub|] eqn:Hk; [|done].
    destruct (Forall_lookup_1 _ _ _ _ Hsubs Hk) as [Hsub Hstart].
    destruct task_id as [taskId|].
    + unfold carriesInvariant. cbn [store inFlight pollers].
      unfold addToHistory.
      split; [|split; [|split]].
      * apply conforming_updateHistory. constructor; [|done].
        split; [by eexists|]. intros Hstatus. discriminate Hstatus.
      * apply conforming_updateHistory. constructor; [|done].
        split; [by eexists|]. intros Hstatus. discriminate Hstatus.
      * by apply Forall_delete.
      * apply Forall_app. split; [done|]. apply Forall_singleton.
        split; [done|]. intros item Hin. by apply (Hev sub taskId).
    + split; [done|]. split; [done|]. split; [|done].
      by apply Forall_delete.
  - destruct (pollers app !! k) as [p|] eqn:Hk; [|done].
    destruct reply as [data|]; [|done].
    destruct (Forall_lookup_1 _ _ _ _ Hpolls Hk) as [Hcaptured Hfresh].
    repeat case_bool_decide; try done;
      unfold carriesInvariant; cbn [store inFlight pollers];
      rewrite updateHistoryItem_missing by done;
      (split; [by apply conforming_updateHistory|]);
      (split; [by apply conforming_updateHistory|]);
      (split; [done|by apply Forall_delete]).
  - destruct (hasPendingTasks _); [|done].
    unfold carriesInvariant. cbn [store inFlight pollers].
    split; [by apply conforming_poller|].
    split; [by apply conforming_poller|done].
  - unfold carriesInvariant. cbn [store inFlight pollers].
    unfold removeFromHistory.
    assert (Forall conforming
              (filter (λ item, id item ≠ Some taskId) (st_history (store app))))
      as Hkept.
    { apply Forall_forall. intros x Hx.
      apply list_elem_of_filter in Hx as [_ Hx].
      by eapply Forall_forall in Hhistory. }
    split; [by apply conforming_updateHistory|].
    split; [by apply conforming_updateHistory|done].
  - case_bool_decide; [|done].
    unfold carriesInvariant. cbn [store inFlight pollers]. unfold clearHistory.
    split; [by apply conforming_updateHistory|].
    split; [by apply conforming_updateHistory|done].
Qed.

Lemma orderlyReachable_carriesInvariant APP_ENABLED app :
  orderlyReachable APP_ENABLED app → carriesInvariant app.
Proof.
  induction 1 as [stored Hstored | ev app _ IH Hev].
  - by apply mountApp_carriesInvariant.
  - by apply step_carriesInvariant.
Qed.

(** C3, as amended: in an orderly session (started over no stored list
    or over one whose items have the property and a timestamp other than
    0, with a clock that does not read 0 at a click, task ids that are
    new when issued and a poll clock not behind a pending item's
    timestamp), after any store operation or poller update every stored
    item, in memory and in storage, that is completed carries a songs
    list (possibly empty) and a completedAt not before its timestamp. *)
Theorem completed_carries_invariant (APP_ENABLED : bool) (app : App) :
  orderlyReachable APP_ENABLED app →
  (∀ item, item ∈ st_history (store app) → completedCarries item)
  ∧ (∀ l item, st_storage (store app) = Some (Encoded l) → item ∈ l →
       completedCarries item).
Proof.
  intros Hreach.
  destruct (orderlyReachable_carriesInvariant _ _ Hreach)
    as (Hhistory & Hstorage & _).
  split.
  - intros item Hin.
    exact (proj2 (proj1 (Forall_forall _ _) Hhistory item Hin)).
  - intros l item Hl Hin.
    exact (proj2 (proj1 (Forall_forall _ _) (Hstorage l Hl) item Hin)).
Qed.

(** The session in which task t1 is accepted and then found completed by
    the reconciliation poller at time 2000. *)
Lemma completed_carries_invariant_witness :
  st_history (store reconciledFirst)
    = [completedItem "t1" 1000 2000 [sampleSong]]
  ∧ completedCarries (completedItem "t1" 1000 2000 [sampleSong]).
Proof.
  split; [reflexivity|].
  apply (completed_carries_invariant true reconciledFirst);
    [|apply list_elem_of_here].
  unfold reconciledFirst, run, submitOne. cbn [foldl app].
  apply orderly_step; [apply orderly_step; [apply orderly_step|]|].
  - apply orderly_mount. intros l Hl. discriminate Hl.
  - simpl. lia.
  - intros sub taskId item [= <-] _ Hin. by apply elem_of_nil in Hin.
  - intros parsed i item t [= <-] Hi _ Ht.
    destruct i as [|i]; [|done]. injection Hi as <-. injection Ht as <-.
    unfold tickingClock. lia.
Defined.

(** C3 fails as stated: a stored list is loaded as it is, but for the
    statuses, so an item stored as completed without songs or times is in
    the history after the load, and still after a store operation. *)
Lemma completed_item_counterexample :
  reachable true (mountApp (Some (Encoded [bareCompleted])))
  ∧ bareCompleted ∈ st_history (store (mountApp (Some (Encoded [bareCompleted]))))
  ∧ reachable true
      (step true (Remove "t9" (tickingClock 3000))
         (mountApp (Some (Encoded [bareCompleted]))))
  ∧ (∃ item,
       item ∈ st_history
                (store (step true (Remove "t9" (tickingClock 3000))
                          (mountApp (Some (Encoded [bareCompleted])))))
       ∧ status item = Some "completed" ∧ songs item = None
       ∧ completedAt item = None
       ∧ ¬ completedCarries item)
  ∧ status bareCompleted = Some "completed"
  ∧ ¬ completedCarries bareCompleted.
Proof.
  split; [constructor|]. split; [apply list_elem_of_here|].
  split; [constructor; constructor|]. split; [|split; [done|]].
  - eexists. split; [apply list_elem_of_here|].
    repeat split; try reflexivity.
    intros H. by destruct (H eq_refl) as [[l Hl] _].
  - intros H. by destruct (H eq_refl) as [[l Hl] _].
Qed.

(** ** The generation guard *)

Lemma nonempty_length {A} (l : list A) : l ≠ [] ↔ (0 < length l)%nat.
Proof. destruct l; simpl; split; intros; try done; lia. Qed.

Lemma mountApp_sessionInvariant stored : sessionInvariant (mountApp stored).
Proof.
  unfold sessionInvariant; simpl. split; [done|]. split; [lia|].
  split; [done|]. by intros [|].
Qed.

Lemma step_sessionInvariant APP_ENABLED ev app :
  sessionInvariant app → sessionInvariant (step APP_ENABLED ev app).
Proof.
  destruct app as [st loading count seen waiting polling].
  unfold sessionInvariant. rewrite !nonempty_length. simpl.
  intros (Hcount & Hone & Hloading).
  assert (loading = false → length waiting = 0 ∧ length polling = 0)%nat
    as Hidle.
  { intros ->. destruct (length waiting), (length polling); try done;
      exfalso; assert (false = true) by (apply Hloading; lia); done. }
  assert (0 < length waiting ∨ 0 < length polling → loading = true)%nat
    as Hbusy by apply Hloading.
  destruct ev as [lyrics opts now | k task_id clock | k reply now clock
                 | fetch pollClock clock | taskId clock | clock]; simpl.
  - unfold generateDisabled; simpl.
    destruct loading; simpl; [done|].
    case_bool_decide; simpl; [done|].
    destruct APP_ENABLED; simpl; [|done].
    destruct Hidle as [Hw Hp]; [done|].
    rewrite length_app; simpl. rewrite Hw, Hp in *.
    split; [done|]. split; [lia|]. split; [lia|done].
  - destruct (waiting !! k) as [sub|] eqn:Hk; simpl; [|done].
    assert (k < length waiting)%nat as Hlt by by eapply lookup_lt_Some.
    assert (length waiting = 1 ∧ length polling = 0)%nat as [Hw Hp] by lia.
    assert (loading = true) as -> by (apply Hbusy; lia).
    destruct task_id as [taskId|]; simpl;
      rewrite ?length_app, length_delete by eauto;
      simpl; rewrite Hw, Hp in *; simpl.
    + split; [lia|]. split; [lia|]. split; [lia|done].
    + split; [lia|]. split; [lia|]. split; [done|lia].
  - destruct (polling !! k) as [p|] eqn:Hk; simpl; [|done].
    destruct reply as [data|]; simpl; [|done].
    assert (k < length polling)%nat as Hlt by by eapply lookup_lt_Some.
    assert (length waiting = 0 ∧ length polling = 1)%nat as [Hw Hp] by lia.
    repeat case_bool_decide; simpl; [| |done];
      rewrite length_delete by eauto; rewrite Hw, Hp in *; simpl;
      (split; [lia|]; split; [lia|]; split; [done|lia]).
  - by destruct (hasPendingTasks (st_history st)).
  - done.
  - by case_bool_decide.
Qed.

Lemma reachable_sessionInvariant APP_ENABLED app :
  reachable APP_ENABLED app → sessionInvariant app.
Proof.
  induction 1 as [stored | ev app _ IH].
  - apply mountApp_sessionInvariant.
  - by apply step_sessionInvariant.
Qed.

Lemma reachable_run APP_ENABLED evs app :
  reachable APP_ENABLED app → reachable APP_ENABLED (run APP_ENABLED evs app).
Proof.
  revert app. induction evs as [|ev evs IH]; intros app Happ; [done|].
  apply IH. by constructor.
Qed.

(** C4, as amended: in every reachable state the generate button is
    disabled exactly when a generation submitted in this session awaits
    the reply to its submission or is still watched by its own poller.
    The pending items of the history play no part. *)
Theorem generate_disabled_while_submitted (APP_ENABLED : bool) (app : App) :
  reachable APP_ENABLED app →
  generateDisabled app = true ↔ inFlight app ≠ [] ∨ pollers app ≠ [].
Proof.
  intros Hreach.
  destruct (reachable_sessionInvariant _ _ Hreach) as (Hcount & _ & Hloading).
  unfold generateDisabled. rewrite orb_true_iff, bool_decide_eq_true, Hloading.
  rewrite Hcount, !nonempty_length. lia.
Qed.

(** After one accepted submission the button is disabled. *)
Lemma generate_disabled_while_submitted_witness :
  generateDisabled (run true submitOne (mountApp None)) = true.
Proof.
  apply (generate_disabled_while_submitted true).
  - apply reachable_run, reachable_mount.
  - right. discriminate.
Defined.

(** C4 fails as stated: a generation is submitted and accepted, its
    pending item is written to storage, and the page is loaded again over
    that storage: the history has the pending item, the button is
    enabled, and a click starts another submission. *)
Lemma pending_loaded_counterexample :
  st_storage (store (run true submitOne (mountApp None)))
    = Some (Encoded [pendingItem "t1" 1000])
  ∧ reachable true (mountApp (Some (Encoded [pendingItem "t1" 1000])))
  ∧ st_history (store (mountApp (Some (Encoded [pendingItem "t1" 1000]))))
    = [pendingItem "t1" 1000]
  ∧ hasPendingTasks
      (st_history (store (mountApp (Some (Encoded [pendingItem "t1" 1000])))))
    = true
  ∧ generateDisabled (mountApp (Some (Encoded [pendingItem "t1" 1000])))
    = false
  ∧ length (inFlight (step true (Click "violets are blue" femaleOptions 5000)
                        (mountApp (Some (Encoded [pendingItem "t1" 1000])))))
    = 1%nat.
Proof.
  split; [reflexivity|]. split; [constructor|].
  split; [reflexivity|]. split; [reflexivity|]. split; reflexivity.
Qed.

(** The closure of a submission keeps the history of the render in which
    the button was clicked: when its own poller sees the task completed,
    [updateHistoryItem] maps over that history, in which the task's item
    is not yet, and the save replaces the stored list by it. *)
Lemma per_submission_poller_saves_captured_history :
  st_history (store (run true submitOne (mountApp None)))
    = [pendingItem "t1" 1000]
  ∧ store (run true
             (submitOne ++
              [PollTick 0 (Some (completedReply (Some [sampleSong]) None None))
                 2000 (tickingClock 2001)])
             (mountApp None))
    = {| st_history := []; st_storage := Some (Encoded []) |}.
Proof. split; reflexivity. Qed.

(** ** Updates from the click's closure

    [updateHistoryItem] is called from the interval callback of
    [generateMusic] alone, with the [history] of the render in which the
    button was clicked; [removeFromHistory] is called from the current
    render. *)

(** In any state, a tick of a poller that sees its task completed saves
    the merge over the history its closure captured. *)
Lemma pollTick_completed_store APP_ENABLED app k p data now clock :
  pollers app !! k = Some p → sd_status data = "completed" →
  store (step APP_ENABLED (PollTick k (Some data) now clock) app)
  = updateHistoryItem (p_history p) (p_taskId p)
      (completedUpdates data (p_startTime p) now) clock.
Proof.
  intros Hk Hs. unfold step. rewrite Hk, Hs.
  by rewrite bool_decide_eq_true_2.
Qed.

(** C5: the session in which, over two stored items, a generation is
    accepted as t1 and "Clear All" is confirmed while it is pending, is
    reachable; its stored list is empty, so no stored item has the id t1;
    the update of t1 that the poller of the submission then makes does
    not leave the stored list as it is: it writes the two items of the
    click's history back, in memory and in storage.  Removing an absent
    id in the same state leaves the store as it is. *)
Theorem update_missing_id_rewrites_store :
  reachable true clearedWhilePending
  ∧ store clearedWhilePending
    = {| st_history := []; st_storage := Some (Encoded []) |}
  ∧ (∀ item, item ∈ st_history (store clearedWhilePending) →
       id item ≠ Some "t1")
  ∧ pollers clearedWhilePending
    = [{| p_taskId := "t1"; p_startTime := 1000; p_history := twoItems |}]
  ∧ store (step true
             (PollTick 0 (Some (completedReply (Some [sampleSong]) None None))
                2000 (tickingClock 2001))
             clearedWhilePending)
    = updateHistoryItem twoItems "t1"
        (completedUpdates (completedReply (Some [sampleSong]) None None)
           1000 2000)
        (tickingClock 2001)
  ∧ updateHistoryItem twoItems "t1"
      (completedUpdates (completedReply (Some [sampleSong]) None None)
         1000 2000)
      (tickingClock 2001)
    = {| st_history := twoItems; st_storage := Some (Encoded twoItems) |}
  ∧ store (step true (Remove "t1" (tickingClock 2001)) clearedWhilePending)
    = store clearedWhilePending.
Proof.
  split; [apply reachable_run, reachable_mount|].
  split; [reflexivity|].
  split; [intros item Hin; by apply elem_of_nil in Hin|].
  split; [reflexivity|].
  split.
  { by apply (pollTick_completed_store true clearedWhilePending 0
                {| p_taskId := "t1"; p_startTime := 1000;
                   p_history := twoItems |}). }
  split; reflexivity.
Qed.

(** C9: the session in which a generation is accepted as t1 and the
    reconciliation poller stores it as completed is reachable; the
    completed update that the poller of the submission then makes has
    exactly the fields the stored item has already (merging it into the
    item gives the item); yet applying it does not leave the stored item
    as it is: the save writes the click's history, which is empty, and
    the item is gone from memory and from storage. *)
Theorem identical_update_drops_item :
  reachable true reconciledFirst
  ∧ store reconciledFirst
    = {| st_history := [completedItem "t1" 1000 2000 [sampleSong]];
         st_storage :=
           Some (Encoded [completedItem "t1" 1000 2000 [sampleSong]]) |}
  ∧ pollers reconciledFirst
    = [{| p_taskId := "t1"; p_startTime := 1000; p_history := [] |}]
  ∧ spread (completedItem "t1" 1000 2000 [sampleSong])
      (completedUpdates sameReply 1000 2005)
    = completedItem "t1" 1000 2000 [sampleSong]
  ∧ store (step true (PollTick 0 (Some sameReply) 2005 (tickingClock 2006))
             reconciledFirst)
    = updateHistoryItem [] "t1" (completedUpdates sameReply 1000 2005)
        (tickingClock 2006)
  ∧ updateHistoryItem [] "t1" (completedUpdates sameReply 1000 2005)
      (tickingClock 2006)
    = {| st_history := []; st_storage := Some (Encoded []) |}.
Proof.
  split; [apply reachable_run, reachable_mount|].
  split; [reflexivity|]. split; [reflexivity|]. split; [reflexivity|].
  split; [|reflexivity].
  by apply (pollTick_completed_store true reconciledFirst 0
              {| p_taskId := "t1"; p_startTime := 1000; p_history := [] |}).
Qed.

(** * Further properties *)

(** ** Saving and loading *)

Lemma validStatus_cases s :
  validStatus s = true →
  s = Some "pending" ∨ s = Some "completed" ∨ s = Some "failed".
Proof.
  destruct s as [v|]; simpl; [|done]. intros H.
  apply bool_decide_eq_true in H.
  rewrite !elem_of_cons, elem_of_nil in H.
  destruct H as [-> | [-> | [-> | []]]]; auto.
Qed.

Lemma validItem_validStatus now item : validStatus (status (validItem now item)) = true.
Proof.
  unfold validItem; simpl. by destruct (validStatus (status item)) eqn:E.
Qed.

Lemma loadedItem_valid item :
  validStatus (status item) = true → loadedItem item = item.
Proof.
  intros H. destruct item as [a p s t c so e ta]; simpl in *.
  unfold loadedItem; simpl.
  by destruct (validStatus_cases _ H) as [-> | [-> | ->]].
Qed.

(** X1: what the save writes is what the page loads: mounting over the
    storage left by a save gives the state and the storage of the save. *)
Theorem save_then_load (clock : nat → Z) (newHistory : list HistoryItem) :
  mountStore (st_storage (updateHistory clock newHistory))
  = updateHistory clock newHistory.
Proof.
  unfold mountStore, loadHistory, updateHistory; simpl. f_equal.
  apply fmap_fixed. intros item Hin. apply loadedItem_valid.
  apply list_elem_of_lookup in Hin as [i Hi].
  rewrite validHistory_lookup in Hi.
  apply fmap_Some in Hi as (raw & _ & ->). apply validItem_validStatus.
Qed.

Lemma mountStore_reload stored :
  st_history (mountStore (st_storage (mountStore stored)))
  = st_history (mountStore stored).
Proof.
  destruct stored as [[text|parsed]|]; [|done|done].
  unfold mountStore, loadHistory; simpl.
  case_bool_decide as Htext; simpl; [|done].
  by rewrite bool_decide_eq_true_2.
Qed.

Lemma poller_result fetchTaskDetails pollClock clock st :
  updateHistoryWithCompletedTasks fetchTaskDetails pollClock clock st = st
  ∨ ∃ l, updateHistoryWithCompletedTasks fetchTaskDetails pollClock clock st
         = updateHistory clock l.
Proof.
  unfold updateHistoryWithCompletedTasks.
  destruct (st_storage st) as [[text|parsed]|]; [by left| |by left].
  match goal with |- context [if ?b then _ else _] => destruct b end;
    [right; by eexists|by left].
Qed.

(** X3: in every reachable state the history in memory is the one a
    reload of the page would show: mounting over the current storage
    gives the current history. *)
Theorem reachable_reload (APP_ENABLED : bool) (app : App) :
  reachable APP_ENABLED app →
  st_history (mountStore (st_storage (store app))) = st_history (store app).
Proof.
  induction 1 as [stored | ev app Happ IH].
  - apply mountStore_reload.
  - destruct ev as [lyrics opts now | k task_id clock | k reply now clock
                   | fetch pollClock clock | taskId clock | clock];
      unfold step.
    + destruct (generateDisabled app); [done|].
      by destruct APP_ENABLED.
    + destruct (inFlight app !! k); [|done].
      destruct task_id; [|done]. cbn [store].
      unfold addToHistory. by rewrite save_then_load.
    + destruct (pollers app !! k); [|done]. destruct reply; [|done].
      repeat case_bool_decide; cbn [store]; try done;
        unfold updateHistoryItem; by rewrite save_then_load.
    + destruct (hasPendingTasks _); [|done]. cbn [store].
      destruct (poller_result fetch pollClock clock (store app))
        as [-> | [l ->]]; [done|by rewrite save_then_load].
    + cbn [store]. unfold removeFromHistory. by rewrite save_then_load.
    + case_bool_decide; [|done]. cbn [store].
      unfold clearHistory. by rewrite save_then_load.
Qed.

Lemma reachable_reload_witness :
  st_history (mountStore (st_storage
                (store (run true submitOne (mountApp None)))))
  = st_history (store (run true submitOne (mountApp None))).
Proof.
  apply (reachable_reload true). apply reachable_run, reachable_mount.
Defined.

(** ** Removing, adding and updating by id *)

Lemma filter_wellFormed (P : HistoryItem → Prop) `{!∀ x, Decision (P x)}
    (l : list HistoryItem) :
  Forall wellFormed l → Forall wellFormed (filter P l).
Proof.
  rewrite !Forall_forall. intros Hl x Hx.
  apply list_elem_of_filter in Hx as [_ Hx]. by apply Hl.
Qed.

(** X4: after [removeFromHistory] with a non-empty id no stored item has
    that id, and the list has not grown; on a list the store saved, what
    is left is the list without those items: the other items, unchanged
    and in their order. *)
Theorem removeFromHistory_removes (history : list HistoryItem)
    (taskId : string) (clock : nat → Z) :
  taskId ≠ "" →
  (∀ item, item ∈ st_history (removeFromHistory history taskId clock) →
     id item ≠ Some taskId)
  ∧ (length (st_history (removeFromHistory history taskId clock))
     ≤ length history)%nat
  ∧ (∀ saveClock raw,
       (∀ i, saveClock i ≠ 0%Z) → history = validHistory saveClock raw →
       st_history (removeFromHistory history taskId clock)
         `sublist_of` history
       ∧ ∀ item, item ∈ history → id item ≠ Some taskId →
           item ∈ st_history (removeFromHistory history taskId clock)).
Proof.
  intros Hid. unfold removeFromHistory. cbn [st_history updateHistory].
  split; [|split].
  - intros item Hin Hitem.
    apply list_elem_of_lookup in Hin as [i Hi].
    rewrite validHistory_lookup in Hi.
    apply fmap_Some in Hi as (x & Hx & ->).
    apply list_elem_of_lookup_2, list_elem_of_filter in Hx as [Hx _].
    unfold validItem, orEmpty in Hitem; simpl in Hitem.
    destruct (id x) as [y|]; simpl in Hitem; [by apply Hx|].
    apply Hid. congruence.
  - rewrite validHistory_length. apply length_filter.
  - intros saveClock raw Hclock Hsaved.
    rewrite validHistory_fixed.
    + split; [apply sublist_filter; apply _|].
      intros item Hin Hitem. by apply list_elem_of_filter.
    + apply filter_wellFormed. rewrite Hsaved.
      by apply validHistory_wellFormed.
Qed.

Lemma removeFromHistory_removes_witness :
  st_history (removeFromHistory fiveItems "t3" (tickingClock 9000))
  `sublist_of` fiveItems
  ∧ ∀ item, item ∈ st_history (removeFromHistory fiveItems "t3"
                                 (tickingClock 9000)) →
      id item ≠ Some "t3".
Proof.
  destruct (removeFromHistory_removes fiveItems "t3" (tickingClock 9000))
    as (Hgone & _ & Hsaved); [done|].
  split; [|exact Hgone].
  apply (Hsaved (tickingClock 1) fiveItems); [|reflexivity].
  intros i. unfold tickingClock. lia.
Defined.

(** X5: adding an item under an id that no stored item has and removing
    that id again gives back the saved list, in memory and in storage. *)
Theorem add_then_remove (saveClock : nat → Z) (raw : list HistoryItem)
    (item : HistoryItem) (taskId : string) (addClock removeClock : nat → Z) :
  (∀ i, saveClock i ≠ 0%Z) →
  id item = Some taskId →
  (∀ x, x ∈ validHistory saveClock raw → id x ≠ Some taskId) →
  removeFromHistory
    (st_history (addToHistory (validHistory saveClock raw) item addClock))
    taskId removeClock
  = updateHistory saveClock raw.
Proof.
  intros Hclock Hid Hfresh.
  unfold addToHistory. cbn [st_history updateHistory].
  rewrite validHistory_cons, validHistory_saved by done.
  unfold removeFromHistory.
  rewrite filter_cons_False.
  - rewrite filter_fixed by done. by apply updateHistory_saved.
  - intros Hne. apply Hne. unfold validItem, orEmpty; simpl. by rewrite Hid.
Qed.

Lemma add_then_remove_witness :
  removeFromHistory
    (st_history (addToHistory fiveItems (pendingItem "t6" 6000)
                   (tickingClock 6000)))
    "t6" (tickingClock 7000)
  = {| st_history := fiveItems; st_storage := Some (Encoded fiveItems) |}.
Proof.
  apply (add_then_remove (tickingClock 1) fiveItems (pendingItem "t6" 6000)).
  - intros i. unfold tickingClock. lia.
  - reflexivity.
  - intros x Hin.
    change (validHistory (tickingClock 1) fiveItems) with fiveItems in Hin.
    unfold fiveItems in Hin.
    repeat (apply elem_of_cons in Hin as [->|Hin]; [done|]).
    by apply elem_of_nil in Hin.
Defined.

(** X6: [updateHistoryItem] on a list the store saved keeps the length
    and the order, stores every item with another id unchanged, and
    stores at the place of an item with the id the item merged with the
    updates, as the save normalises it. *)
Theorem updateHistoryItem_by_id (saveClock : nat → Z)
    (raw : list HistoryItem) (taskId : string) (updates : Updates)
    (clock : nat → Z) :
  (∀ i, saveClock i ≠ 0%Z) →
  length (st_history (updateHistoryItem (validHistory saveClock raw) taskId
                        updates clock))
    = length (validHistory saveClock raw)
  ∧ ∀ i item, validHistory saveClock raw !! i = Some item →
      (id item ≠ Some taskId →
       st_history (updateHistoryItem (validHistory saveClock raw) taskId
                     updates clock) !! i = Some item)
      ∧ (id item = Some taskId →
         st_history (updateHistoryItem (validHistory saveClock raw) taskId
                       updates clock) !! i
         = Some (validItem (clock i) (spread item updates))).
Proof.
  intros Hclock. unfold updateHistoryItem. cbn [st_history updateHistory].
  split; [by rewrite validHistory_length, length_fmap|].
  intros i item Hi.
  rewrite (validHistory_lookup clock), list_lookup_fmap, Hi. simpl.
  split; intros Hid.
  - rewrite bool_decide_eq_false_2 by done. f_equal.
    apply validItem_fixed.
    eapply Forall_lookup_1; [by apply validHistory_wellFormed|exact Hi].
  - by rewrite bool_decide_eq_true_2.
Qed.

Lemma updateHistoryItem_by_id_witness :
  st_history (updateHistoryItem fiveItems "t3" (statusOnly "failed")
                (tickingClock 9000)) !! 0
    = Some (completedItem "t5" 5000 5500 [sampleSong])
  ∧ (status <$> st_history (updateHistoryItem fiveItems "t3"
                              (statusOnly "failed") (tickingClock 9000)) !! 2)
    = Some (Some "failed").
Proof.
  destruct (updateHistoryItem_by_id (tickingClock 1) fiveItems "t3"
              (statusOnly "failed") (tickingClock 9000)) as [_ Hitems].
  { intros i. unfold tickingClock. lia. }
  split.
  - by apply (Hitems 0 (completedItem "t5" 5000 5500 [sampleSong])).
  - change (validHistory (tickingClock 1) fiveItems) with fiveItems in Hitems.
    by rewrite (proj2 (Hitems 2 (completedItem "t3" 3000 3500 [sampleSong])
                         eq_refl) eq_refl).
Defined.

(** ** What the reconciliation poller leaves alone *)

Lemma hasPendingTasks_false (l : list HistoryItem) :
  hasPendingTasks l = false ↔ ∀ item, item ∈ l → status item ≠ Some "pending".
Proof.
  unfold hasPendingTasks. induction l as [|x l IH]; simpl.
  - split; [|done]. intros _ item Hin. by apply elem_of_nil in Hin.
  - rewrite orb_false_iff, IH, bool_decide_eq_false. split.
    + intros [Hx Hl] item Hin.
      apply elem_of_cons in Hin as [->|Hin]; [done|by apply Hl].
    + intros Hall. split; [apply Hall, list_elem_of_here|].
      intros item Hin. by apply Hall, list_elem_of_further.
Qed.

(** X7: the poller does not move an item out of completed or failed: the
    item stored at its place afterwards has the same status, songs,
    error, completedAt and tags, whatever the status endpoint reports. *)
Theorem poller_keeps_terminal
    (fetchTaskDetails : nat → string → option TaskData)
    (pollClock clock : nat → Z) (st : Store)
    (parsedHistory : list HistoryItem) (i : nat) (item : HistoryItem) :
  st_storage st = Some (Encoded parsedHistory) →
  parsedHistory !! i = Some item →
  status item = Some "completed" ∨ status item = Some "failed" →
  ∃ stored after,
    st_storage (updateHistoryWithCompletedTasks fetchTaskDetails pollClock
                  clock st) = Some (Encoded after)
    ∧ length after = length parsedHistory
    ∧ after !! i = Some stored
    ∧ status stored = status item
    ∧ songs stored = songs item
    ∧ error stored = error item
    ∧ completedAt stored = completedAt item
    ∧ tags stored = tags item.
Proof.
  intros Hst Hi Hterminal.
  assert (status item ≠ Some "pending") as Hnp
    by (destruct Hterminal as [-> | ->]; done).
  unfold updateHistoryWithCompletedTasks. rewrite Hst.
  match goal with |- context [if ?b then _ else _] => destruct b end.
  - eexists _, _. split; [reflexivity|].
    split; [by rewrite validHistory_length, length_fmap, length_imap|].
    split.
    { by rewrite validHistory_lookup, list_lookup_fmap, list_lookup_imap, Hi. }
    cbv beta. rewrite checkTask_not_pending by done.
    unfold validItem; simpl.
    by destruct Hterminal as [-> | ->].
  - exists item, parsedHistory. by rewrite Hst.
Qed.

Lemma poller_keeps_terminal_witness :
  ∃ stored after,
    st_storage (updateHistoryWithCompletedTasks allCompleted
                  (tickingClock 2000) (tickingClock 2001)
                  (updateHistory (tickingClock 1)
                     (pendingItem "t6" 1900 :: fiveItems)))
      = Some (Encoded after)
    ∧ after !! 1 = Some stored
    ∧ completedAt stored = Some 5500%Z.
Proof.
  destruct (poller_keeps_terminal allCompleted (tickingClock 2000)
              (tickingClock 2001)
              (updateHistory (tickingClock 1) (pendingItem "t6" 1900 :: fiveItems))
              (pendingItem "t6" 1900 :: fiveItems) 1
              (completedItem "t5" 5000 5500 [sampleSong])
              eq_refl eq_refl (or_introl eq_refl))
    as (stored & after & Hafter & _ & Hlookup & _ & _ & _ & Hc & _).
  exists stored, after. repeat split; assumption.
Defined.

(** X8: the poller writes nothing, neither state nor storage, when the
    storage holds no list or a list without a pending item. *)
Theorem poller_idle_without_pending
    (fetchTaskDetails : nat → string → option TaskData)
    (pollClock clock : nat → Z) (st : Store) :
  (∀ parsedHistory, st_storage st = Some (Encoded parsedHistory) →
     hasPendingTasks parsedHistory = false) →
  updateHistoryWithCompletedTasks fetchTaskDetails pollClock clock st = st.
Proof.
  intros Hnone.
  destruct (st_storage st) as [[text|parsed]|] eqn:Hst;
    [by unfold updateHistoryWithCompletedTasks; rewrite Hst| |
     by unfold updateHistoryWithCompletedTasks; rewrite Hst].
  apply (poller_idle _ _ _ _ parsed); [done|].
  intros i item Hi. rewrite checkTask_not_pending; [done|].
  eapply hasPendingTasks_false; [by apply Hnone|].
  by eapply list_elem_of_lookup_2.
Qed.

Lemma poller_idle_without_pending_witness :
  updateHistoryWithCompletedTasks allCompleted (tickingClock 2000)
    (tickingClock 2001) (updateHistory (tickingClock 1) fiveItems)
  = updateHistory (tickingClock 1) fiveItems.
Proof.
  apply poller_idle_without_pending.
  intros parsed [= <-]. reflexivity.
Defined.

(** X9: when every pending item of a saved list is reported completed or
    failed, no item of the history is pending after the poller's run, so
    that the periodic check is not set up again. *)
Theorem poller_leaves_none_pending
    (fetchTaskDetails : nat → string → option TaskData)
    (pollClock clock saveClock : nat → Z) (raw : list HistoryItem) :
  (∀ i item, validHistory saveClock raw !! i = Some item →
     status item = Some "pending" →
     ∃ data, fetchTaskDetails i (idText (id item)) = Some data
       ∧ (task_status data = "completed" ∨ task_status data = "failed")) →
  hasPendingTasks
    (st_history (updateHistoryWithCompletedTasks fetchTaskDetails pollClock
                   clock (updateHistory saveClock raw))) = false.
Proof.
  intros Hterminal.
  assert (st_storage (updateHistory saveClock raw)
          = Some (Encoded (validHistory saveClock raw))) as Hst by done.
  destruct (hasPendingTasks (validHistory saveClock raw)) eqn:Hpending.
  - apply existsb_exists in Hpending as (item & Hin & Hitem).
    apply bool_decide_eq_true in Hitem.
    apply list_elem_of_In, list_elem_of_lookup in Hin as [i Hi].
    destruct (Hterminal i item Hi Hitem) as (data & Hreply & Hdata).
    rewrite (poller_saves _ _ _ _ _ i item Hst Hi).
    2:{ rewrite Hreply.
        destruct Hdata as [Hd | Hd];
          [by rewrite checkTask_completed|by rewrite checkTask_failed]. }
    apply hasPendingTasks_false. intros stored Hstored.
    cbn [st_history updateHistory] in Hstored.
    apply list_elem_of_lookup in Hstored as [k Hk].
    rewrite validHistory_lookup, list_lookup_fmap, list_lookup_imap in Hk.
    destruct (validHistory saveClock raw !! k) as [x|] eqn:Hx; [|done].
    simpl in Hk. injection Hk as <-.
    destruct (decide (status x = Some "pending")) as [Hp | Hp].
    + destruct (Hterminal k x Hx Hp) as (d & Hr & Hd). rewrite Hr.
      destruct Hd as [Hd | Hd];
        [rewrite checkTask_completed by done
        |rewrite checkTask_failed by done]; done.
    + rewrite checkTask_not_pending by done.
      assert (validStatus (status x) = true) as Hvalid.
      { rewrite validHistory_lookup in Hx.
        apply fmap_Some in Hx as (y & _ & ->). apply validItem_validStatus. }
      unfold validItem; simpl. by rewrite Hvalid.
  - rewrite poller_idle_without_pending; [done|].
    by intros parsed [= <-].
Qed.

Lemma poller_leaves_none_pending_witness :
  hasPendingTasks
    (st_history (updateHistoryWithCompletedTasks allCompleted
                   (tickingClock 2000) (tickingClock 2001)
                   (updateHistory (tickingClock 1)
                      (pendingItem "t6" 1900 :: fiveItems)))) = false.
Proof.
  apply poller_leaves_none_pending.
  intros i item _ _. exists completedTask. split; [reflexivity|by left].
Defined.

(** ** The session's generations *)

(** X11: in every reachable state at most one generation of the session
    is under way, awaiting the reply to its submission or watched by its
    poller, and [pendingCount] is the number of live pollers: 0 or 1,
    never negative. *)
Theorem one_generation_at_a_time (APP_ENABLED : bool) (app : App) :
  reachable APP_ENABLED app →
  (length (inFlight app) + length (pollers app) ≤ 1)%nat
  ∧ pendingCount app = Z.of_nat (length (pollers app))
  ∧ (pendingCount app = 0%Z ∨ pendingCount app = 1%Z).
Proof.
  intros Hreach.
  destruct (reachable_sessionInvariant _ _ Hreach) as (Hcount & Hone & _).
  split; [done|]. split; [done|]. lia.
Qed.

Lemma one_generation_at_a_time_witness :
  pendingCount (run true submitOne (mountApp None)) = 1%Z
  ∧ (length (inFlight (run true submitOne (mountApp None)))
     + length (pollers (run true submitOne (mountApp None))) ≤ 1)%nat.
Proof.
  destruct (one_generation_at_a_time true (run true submitOne (mountApp None)))
    as (Hone & _ & _); [apply reachable_run, reachable_mount|].
  split; [reflexivity|exact Hone].
Defined.

(** X12: when the submission is rejected, the store is left as it is (no
    history entry is made), nothing of the session is under way any more
    and the generate button is enabled again. *)
Theorem rejected_submission (APP_ENABLED : bool) (app : App) (k : nat)
    (sub : Submission) (clock : nat → Z) :
  reachable APP_ENABLED app →
  inFlight app !! k = Some sub →
  store (step APP_ENABLED (PostSettled k None clock) app) = store app
  ∧ inFlight (step APP_ENABLED (PostSettled k None clock) app) = []
  ∧ pollers (step APP_ENABLED (PostSettled k None clock) app) = []
  ∧ generateDisabled (step APP_ENABLED (PostSettled k None clock) app)
    = false.
Proof.
  intros Hreach Hk.
  destruct (reachable_sessionInvariant _ _ Hreach) as (Hcount & Hone & _).
  assert (k < length (inFlight app))%nat as Hlt by by eapply lookup_lt_Some.
  assert (length (inFlight app) = 1 ∧ length (pollers app) = 0)%nat
    as [Hw Hp] by lia.
  unfold step. rewrite Hk. unfold generateDisabled. cbn.
  rewrite Hcount, Hp.
  split; [done|]. split; [|split; [|done]].
  - apply length_zero_iff_nil. rewrite length_delete by eauto. lia.
  - by apply length_zero_iff_nil.
Qed.

Lemma rejected_submission_witness :
  store (run true [Click "roses are red" femaleOptions 1000;
                   PostSettled 0 None (tickingClock 1001)] (mountApp None))
    = {| st_history := []; st_storage := None |}
  ∧ generateDisabled
      (run true [Click "roses are red" femaleOptions 1000;
                 PostSettled 0 None (tickingClock 1001)] (mountApp None))
    = false.
Proof.
  destruct (rejected_submission true
              (run true [Click "roses are red" femaleOptions 1000]
                 (mountApp None)) 0
              {| sub_history := []; sub_prompt := "roses are red";
                 sub_options := femaleOptions; sub_startTime := 1000 |}
              (tickingClock 1001))
    as (Hstore & _ & _ & Henabled).
  - apply reachable_run, reachable_mount.
  - reflexivity.
  - split; [exact Hstore|exact Henabled].
Defined.

(** X13: when the poller of a submission sees the task completed or
    failed, it stops, nothing of the session is under way any more and
    the generate button is enabled again; a completed task is recorded
    in the set of announced tasks. *)
Theorem terminal_tick_reenables (APP_ENABLED : bool) (app : App) (k : nat)
    (p : Poller) (data : StatusData) (now : Z) (clock : nat → Z) :
  reachable APP_ENABLED app →
  pollers app !! k = Some p →
  sd_status data = "completed" ∨ sd_status data = "failed" →
  pollers (step APP_ENABLED (PollTick k (Some data) now clock) app) = []
  ∧ inFlight (step APP_ENABLED (PollTick k (Some data) now clock) app) = []
  ∧ pendingCount (step APP_ENABLED (PollTick k (Some data) now clock) app)
    = 0%Z
  ∧ generateDisabled (step APP_ENABLED (PollTick k (Some data) now clock) app)
    = false
  ∧ (sd_status data = "completed" →
     p_taskId p ∈ completedTasks
                    (step APP_ENABLED (PollTick k (Some data) now clock) app)).
Proof.
  intros Hreach Hk Hterminal.
  destruct (reachable_sessionInvariant _ _ Hreach) as (Hcount & Hone & _).
  assert (k < length (pollers app))%nat as Hlt by by eapply lookup_lt_Some.
  assert (length (inFlight app) = 0 ∧ length (pollers app) = 1)%nat
    as [Hw Hp] by lia.
  assert (delete k (pollers app) = []) as Hdel.
  { apply length_zero_iff_nil. rewrite length_delete by eauto. lia. }
  assert (inFlight app = []) as Hin by by apply length_zero_iff_nil.
  unfold step. rewrite Hk. unfold generateDisabled.
  destruct Hterminal as [Hs | Hs]; rewrite Hs; cbn;
    rewrite Hcount, Hp, Hdel, Hin; repeat split; try done.
  intros _. apply elem_of_union_r. by apply elem_of_singleton.
Qed.

Lemma terminal_tick_reenables_witness :
  generateDisabled
    (run true (submitOne ++
               [PollTick 0 (Some (completedReply (Some [sampleSong]) None None))
                  2000 (tickingClock 2001)])
       (mountApp None)) = false.
Proof.
  refine (proj1 (proj2 (proj2 (proj2
    (terminal_tick_reenables true (run true submitOne (mountApp None)) 0
       {| p_taskId := "t1"; p_startTime := 1000; p_history := [] |}
       (completedReply (Some [sampleSong]) None None) 2000 (tickingClock 2001)
       _ _ _))))).
  - apply reachable_run, reachable_mount.
  - reflexivity.
  - by left.
Defined.

(** X14: with the feature flag off no generation is ever started:
    in every reachable state nothing is awaiting a reply or being
    polled, [isLoading] is off and [pendingCount] is 0. *)
Theorem flag_off_nothing_starts (app : App) :
  reachable false app →
  inFlight app = [] ∧ pollers app = []
  ∧ isLoading app = false ∧ pendingCount app = 0%Z.
Proof.
  induction 1 as [stored | ev app _ (Hw & Hp & Hl & Hc)]; [done|].
  destruct ev as [lyrics opts now | k task_id clock | k reply now clock
                 | fetch pollClock clock | taskId clock | clock];
    unfold step.
  - by destruct (generateDisabled app).
  - by rewrite Hw.
  - by rewrite Hp.
  - by destruct (hasPendingTasks _).
  - done.
  - by case_bool_decide.
Qed.

Lemma flag_off_nothing_starts_witness :
  inFlight (run false submitOne (mountApp None)) = []
  ∧ pollers (run false submitOne (mountApp None)) = []
  ∧ isLoading (run false submitOne (mountApp None)) = false
  ∧ pendingCount (run false submitOne (mountApp None)) = 0%Z.
Proof.
  apply flag_off_nothing_starts. apply reachable_run, reachable_mount.
Defined.

Lemma validHistory_without_id clock (l : list HistoryItem) taskId :
  taskId ≠ "" →
  (∀ x, x ∈ l → id x ≠ Some taskId) →
  ∀ item, item ∈ validHistory clock l → id item ≠ Some taskId.
Proof.
  intros Hid Hl item Hin Hitem.
  apply list_elem_of_lookup in Hin as [i Hi].
  rewrite validHistory_lookup in Hi.
  apply fmap_Some in Hi as (x & Hx & ->).
  apply list_elem_of_lookup_2 in Hx.
  unfold validItem, orEmpty in Hitem; simpl in Hitem.
  destruct (id x) as [y|] eqn:Hy; simpl in Hitem.
  - apply (Hl x Hx). congruence.
  - apply Hid. congruence.
Qed.

(** X15: the poller of a submission runs in the closure of the click:
    when the submission is accepted under a new, non-empty task id, the
    pending item of the task is put first in the history; when the
    poller then sees the task completed or failed, it saves the history
    of the click, and no stored item has the task's id any more. *)
Theorem own_poller_saves_click_history (APP_ENABLED : bool) (app : App)
    (k : nat) (sub : Submission) (taskId : string) (data : StatusData)
    (now : Z) (acceptClock tickClock : nat → Z) :
  inFlight app !! k = Some sub →
  taskId ≠ "" →
  (∀ item, item ∈ sub_history sub → id item ≠ Some taskId) →
  sd_status data = "completed" ∨ sd_status data = "failed" →
  (∃ entry,
     head (st_history
             (store (step APP_ENABLED (PostSettled k (Some taskId) acceptClock)
                       app))) = Some entry
     ∧ id entry = Some taskId ∧ status entry = Some "pending")
  ∧ store (step APP_ENABLED
             (PollTick (length (pollers app)) (Some data) now tickClock)
             (step APP_ENABLED (PostSettled k (Some taskId) acceptClock) app))
    = updateHistory tickClock (sub_history sub)
  ∧ ∀ item,
      item ∈ st_history
               (store (step APP_ENABLED
                         (PollTick (length (pollers app)) (Some data) now
                            tickClock)
                         (step APP_ENABLED
                            (PostSettled k (Some taskId) acceptClock) app))) →
      id item ≠ Some taskId.
Proof.
  intros Hk Hid Hfresh Hterminal.
  assert (store (step APP_ENABLED
             (PollTick (length (pollers app)) (Some data) now tickClock)
             (step APP_ENABLED (PostSettled k (Some taskId) acceptClock) app))
          = updateHistory tickClock (sub_history sub)) as Hstore.
  { unfold step at 2. rewrite Hk. unfold step. cbn [pollers].
    rewrite list_lookup_middle by done.
    destruct Hterminal as [Hs | Hs]; rewrite Hs.
    - rewrite bool_decide_eq_true_2 by done.
      cbn [store p_history p_taskId p_startTime].
      by rewrite updateHistoryItem_missing.
    - rewrite bool_decide_eq_false_2, bool_decide_eq_true_2 by done.
      cbn [store p_history p_taskId p_startTime].
      by rewrite updateHistoryItem_missing. }
  split; [|split; [exact Hstore|]].
  - unfold step. rewrite Hk. cbn. eexists. split; [reflexivity|]. done.
  - rewrite Hstore. cbn [st_history updateHistory].
    by apply validHistory_without_id.
Qed.

Lemma own_poller_saves_click_history_witness :
  store (run true
           (submitOne ++
            [PollTick 0 (Some (completedReply (Some [sampleSong]) None None))
               2000 (tickingClock 2001)])
           (mountApp None))
  = updateHistory (tickingClock 2001) [].
Proof.
  refine (proj1 (proj2
    (own_poller_saves_click_history true
       (run true [Click "roses are red" femaleOptions 1000] (mountApp None)) 0
       {| sub_history := []; sub_prompt := "roses are red";
          sub_options := femaleOptions; sub_startTime := 1000 |}
       "t1" (completedReply (Some [sampleSong]) None None) 2000
       (tickingClock 1001) (tickingClock 2001) _ _ _ _))).
  - reflexivity.
  - done.
  - intros item Hin. by apply elem_of_nil in Hin.
  - by left.
Defined.

(** ** The generation time badge *)

Lemma generationSeconds_nonneg duration :
  (0 ≤ duration)%Z →
  generationSeconds duration = ((duration `mod` 60000) `div` 1000)%Z.
Proof.
  intros H. unfold generationSeconds.
  by rewrite Z.rem_mod_nonneg by lia.
Qed.

(** X16: for a duration that is not negative, the minutes are not
    negative, the seconds lie between 0 and 59, and minutes and seconds
    together are the duration rounded down to a whole second. *)
Theorem generation_time_split (duration : Z) :
  (0 ≤ duration)%Z →
  (0 ≤ generationMinutes duration)%Z
  ∧ (0 ≤ generationSeconds duration ≤ 59)%Z
  ∧ (generationMinutes duration * 60000 + generationSeconds duration * 1000
     ≤ duration
     < generationMinutes duration * 60000
       + generationSeconds duration * 1000 + 1000)%Z.
Proof.
  intros H. rewrite generationSeconds_nonneg by done.
  unfold generationMinutes. change (1000 * 60)%Z with 60000%Z.
  pose proof (Z.div_mod duration 60000 ltac:(lia)) as Hd.
  pose proof (Z.mod_pos_bound duration 60000 ltac:(lia)) as Hm.
  pose proof (Z.div_mod (duration `mod` 60000) 1000 ltac:(lia)) as Hs.
  pose proof (Z.mod_pos_bound (duration `mod` 60000) 1000 ltac:(lia)) as Hr.
  pose proof (Z.div_pos duration 60000 H ltac:(lia)).
  pose proof (Z.div_pos (duration `mod` 60000) 1000 ltac:(lia) ltac:(lia)).
  assert ((duration `mod` 60000) `div` 1000 < 60)%Z
    by (apply Z.div_lt_upper_bound; lia).
  lia.
Qed.

(** Ninety and a half seconds are shown as one minute and thirty. *)
Lemma generation_time_split_witness :
  generationMinutes 90500 = 1%Z ∧ generationSeconds 90500 = 30%Z
  ∧ (0 ≤ generationSeconds 90500 ≤ 59)%Z.
Proof.
  split; [reflexivity|]. split; [reflexivity|].
  apply (generation_time_split 90500). lia.
Defined.

Lemma padStart_two_digits seconds :
  (0 ≤ seconds ≤ 59)%Z →
  String.length (padStart 2 "0" (pretty seconds)) = 2
  ∧ (seconds < 10 → padStart 2 "0" (pretty seconds) = "0" +:+ pretty seconds)%Z
  ∧ (10 ≤ seconds → padStart 2 "0" (pretty seconds) = pretty seconds)%Z.
Proof.
  intros H.
  assert (∃ n : nat, (n < 60)%nat ∧ seconds = Z.of_nat n) as (n & Hn & ->).
  { exists (Z.to_nat seconds). lia. }
  do 60 (destruct n as [|n];
         [split; [vm_compute; reflexivity|]; split; intros Hc;
          first [lia | vm_compute; reflexivity]|]).
  lia.
Qed.

(** X17: the badge shows nothing when the start or the end is missing or
    0; otherwise, for an end not before the start, it reads the minutes,
    a colon and the seconds in exactly two digits. *)
Theorem GenerationTime_text (startTime endTime : option Z) :
  (startTime = None ∨ startTime = Some 0%Z
   ∨ endTime = None ∨ endTime = Some 0%Z →
   GenerationTime startTime endTime = None)
  ∧ (∀ s e, startTime = Some s → endTime = Some e →
       s ≠ 0%Z → e ≠ 0%Z → (s ≤ e)%Z →
       ∃ seconds,
         GenerationTime startTime endTime
           = Some ("Generated in " +:+ pretty (generationMinutes (e - s))
                   +:+ ":" +:+ seconds)
         ∧ String.length seconds = 2
         ∧ (seconds = pretty (generationSeconds (e - s))
            ∨ seconds = "0" +:+ pretty (generationSeconds (e - s)))).
Proof.
  split.
  - intros [-> | [-> | [-> | ->]]]; unfold GenerationTime.
    + done.
    + by destruct endTime.
    + by destruct startTime.
    + destruct startTime as [s|]; [|done].
      rewrite (bool_decide_eq_true_2 (0 = 0)%Z) by done.
      by rewrite orb_true_r.
  - intros s e -> -> Hs He Hle. unfold GenerationTime.
    rewrite !bool_decide_eq_false_2 by done. cbn [orb].
    eexists. split; [reflexivity|].
    destruct (generation_time_split (e - s)) as (_ & Hsec & _); [lia|].
    destruct (padStart_two_digits _ Hsec) as (Hlen & Hlt & Hge).
    split; [exact Hlen|].
    destruct (decide (generationSeconds (e - s) < 10)%Z);
      [right; apply Hlt|left; apply Hge]; lia.
Qed.

(** An item created at 1000 and completed at 66500. *)
Lemma GenerationTime_text_witness :
  generationBadge (completedItem "t1" 1000 66500 [sampleSong])
  = Some "Generated in 1:05".
Proof.
  destruct (proj2 (GenerationTime_text (Some 1000%Z) (Some 66500%Z))
              1000%Z 66500%Z eq_refl eq_refl)
    as (seconds & Htext & _); [lia..|].
  reflexivity.
Defined.

(** ** Song links *)

(** X18: [getSongUrl] returns a path that begins with http as it is; any
    other path is put under the origin and the base URL, and with or
    without one leading slash it gives the same link. *)
Theorem getSongUrl_resolves (origin hostname path : string) :
  (startsWith "http" path = true →
   getSongUrl origin hostname path = path)
  ∧ (startsWith "http" path = false → startsWith "/" path = false →
     getSongUrl origin hostname path
       = origin +:+ BASE_URL hostname +:+ path
     ∧ getSongUrl origin hostname ("/" +:+ path)
       = getSongUrl origin hostname path).
Proof.
  unfold getSongUrl. split.
  - by intros ->.
  - by intros -> ->.
Qed.

Lemma getSongUrl_resolves_witness :
  getSongUrl "https://example.org" "example.org" "/songs/s1.mp3"
    = "https://example.org/lyrics-to-song/songs/s1.mp3"
  ∧ getSongUrl "https://example.org" "example.org" "songs/s1.mp3"
    = "https://example.org/lyrics-to-song/songs/s1.mp3"
  ∧ getSongUrl "https://example.org" "example.org" "https://cdn.test/s1.mp3"
    = "https://cdn.test/s1.mp3".
Proof.
  destruct (getSongUrl_resolves "https://example.org" "example.org"
              "songs/s1.mp3") as [_ Hrel].
  destruct (Hrel eq_refl eq_refl) as [Hplain Hslash].
  split; [exact (eq_trans Hslash Hplain)|]. split; [exact Hplain|].
  by apply (proj1 (getSongUrl_resolves "https://example.org" "example.org"
                     "https://cdn.test/s1.mp3")).
Defined.

(** ** The request preview *)

(** X19: for the voice types the page can select (female, male, or none
    yet) the previewed request carries the male tags as tags and the
    female tags as negative tags, and its description has no voice part:
    it is the selected genre, mood and era in lower case, joined by
    commas.  With the female voice selected the preview's tags are not
    the tags of the request that is submitted. *)
Theorem preview_ignores_voice (selectedOptions : SelectedOptions)
    (lyrics : string) (random submitted : Z) :
  voiceType selectedOptions = "female" ∨ voiceType selectedOptions = "male"
  ∨ voiceType selectedOptions = "" →
  in_tags (pv_input (previewRequest selectedOptions lyrics random))
    = "male_vocals,male_voice,male_singer"
  ∧ negative_tags (pv_input (previewRequest selectedOptions lyrics random))
    = "female_vocals,female_voice,female_singer"
  ∧ gpt_description_prompt
      (pv_input (previewRequest selectedOptions lyrics random))
    = join ", " (pushLower (genre selectedOptions)
                 ++ pushLower (mood selectedOptions)
                 ++ pushLower (era selectedOptions))
  ∧ (voiceType selectedOptions = "female" →
     in_tags (input (requestData selectedOptions lyrics submitted))
       = "female_vocals,female_voice,female_singer"
     ∧ in_tags (input (requestData selectedOptions lyrics submitted))
       ≠ in_tags (pv_input (previewRequest selectedOptions lyrics random))).
Proof.
  intros Hvoice.
  assert (voiceType selectedOptions ≠ "female_vocals"
          ∧ voiceType selectedOptions ≠ "male_vocals") as [Hf Hm]
    by (destruct Hvoice as [-> | [-> | ->]]; done).
  unfold previewRequest, descriptionParts; simpl.
  rewrite !(bool_decide_eq_false_2 _ Hf), (bool_decide_eq_false_2 _ Hm).
  split; [done|]. split; [done|]. split; [done|].
  intros Hfemale. unfold voiceTags, isFemaleSinger.
  rewrite bool_decide_eq_true_2 by done. by split.
Qed.

Lemma preview_ignores_voice_witness :
  in_tags (pv_input (previewRequest femaleOptions "roses are red" 7))
    = "male_vocals,male_voice,male_singer"
  ∧ gpt_description_prompt
      (pv_input (previewRequest femaleOptions "roses are red" 7))
    = "pop, romantic, modern"
  ∧ in_tags (input (requestData femaleOptions "roses are red" 8))
    = "female_vocals,female_voice,female_singer".
Proof.
  destruct (preview_ignores_voice femaleOptions "roses are red" 7 8)
    as (Htags & _ & Hdescription & Hsubmitted); [by left|].
  split; [exact Htags|]. split; [exact Hdescription|].
  by apply Hsubmitted.
Defined.

(** ** The lyrics form *)

Lemma formStep_warned cleanText ev form :
  f_hasFilteredContent form = true →
  snd (formStep cleanText ev form) = None
  ∧ f_hasFilteredContent (fst (formStep cleanText ev form)) = true.
Proof.
  intros Hflag.
  destruct ev as [text | text | checked |]; simpl;
    unfold handleLyricsChange, handlePromptChange;
    try case_bool_decide; rewrite ?Hflag, ?andb_false_r; simpl; by rewrite ?Hflag.
Qed.

Lemma formStep_first_warning cleanText ev form n :
  snd (formStep cleanText ev form) = Some n →
  n = filterWarning
  ∧ f_hasFilteredContent (fst (formStep cleanText ev form)) = true.
Proof.
  destruct ev as [text | text | checked |]; simpl;
    unfold handleLyricsChange, handlePromptChange;
    try case_bool_decide;
    repeat match goal with
           | |- context [if ?b then _ else _] => destruct b
           end; simpl; intros Hset; by simplify_eq.
Qed.

Lemma formRun_warned cleanText evs form :
  f_hasFilteredContent form = true →
  snd (formRun cleanText evs form) = []
  ∧ f_hasFilteredContent (fst (formRun cleanText evs form)) = true.
Proof.
  revert form. induction evs as [|ev evs IH]; intros form Hflag; [done|].
  destruct (formStep_warned cleanText ev form Hflag) as [Hnone Hkept].
  destruct (IH _ Hkept) as [Hrest Hfinal].
  cbn [formRun]. cbv zeta. cbn [fst snd]. by rewrite Hnone, Hrest.
Qed.

(** X20: over any sequence of typing in the two text boxes, switching
    the assistant and closing notifications, the family-friendly warning
    is raised at most once, whatever the filter flags; once the form has
    recorded a filtered text, no event raises it again. *)
Theorem warning_at_most_once (cleanText : string → string * bool)
    (evs : list FormEvent) (form : Form) :
  (length (snd (formRun cleanText evs form)) ≤ 1)%nat
  ∧ (∀ n, n ∈ snd (formRun cleanText evs form) → n = filterWarning)
  ∧ (f_hasFilteredContent form = true →
     snd (formRun cleanText evs form) = []
     ∧ f_hasFilteredContent (fst (formRun cleanText evs form)) = true).
Proof.
  split; [|split; [|apply formRun_warned]].
  - revert form. induction evs as [|ev evs IH]; intros form; [simpl; lia|].
    cbn [formRun]. cbv zeta. cbn [fst snd].
    destruct (snd (formStep cleanText ev form)) as [n|] eqn:Hstep.
    + destruct (formStep_first_warning _ _ _ _ Hstep) as [_ Hflag].
      destruct (formRun_warned cleanText evs _ Hflag) as [-> _].
      simpl. lia.
    + apply IH.
  - revert form. induction evs as [|ev evs IH]; intros form n Hin.
    { by apply elem_of_nil in Hin. }
    cbn [formRun] in Hin. cbv zeta in Hin. cbn [fst snd] in Hin.
    apply elem_of_app in Hin as [Hin | Hin]; [|by eapply IH].
    destruct (snd (formStep cleanText ev form)) as [m|] eqn:Hstep.
    + apply list_elem_of_singleton in Hin as ->.
      by destruct (formStep_first_warning _ _ _ _ Hstep).
    + by apply elem_of_nil in Hin.
Qed.

(** Two flagged texts in a row: one warning. *)
Lemma warning_at_most_once_witness :
  snd (formRun flagX [TypeIdea "xoxo"; CloseNotification; TypeLyrics "xx"]
         initialForm) = [filterWarning]
  ∧ (length (snd (formRun flagX
                    [TypeIdea "xoxo"; CloseNotification; TypeLyrics "xx"]
                    initialForm)) ≤ 1)%nat.
Proof.
  split; [reflexivity|].
  apply (warning_at_most_once flagX).
Defined.

(** ** The music player *)

(** X21: with store setters that assign their fields, pressing play on a
    player switches its own pause icon (on for a song that was not
    playing, off for the one that was) and leaves no other player showing
    the pause icon; pressing twice on the current song restores the
    store. *)
Theorem handlePlay_switches
    (setCurrentSong : CurrentSong → PlayerStore → PlayerStore)
    (setIsPlaying : bool → PlayerStore → PlayerStore)
    (src title : string) (st : PlayerStore) :
  (∀ song s, setCurrentSong song s = assignCurrentSong song s) →
  (∀ playing s, setIsPlaying playing s = assignIsPlaying playing s) →
  showsPause src (handlePlay setCurrentSong setIsPlaying src title st)
    = negb (showsPause src st)
  ∧ (∀ other, other ≠ src →
       showsPause other (handlePlay setCurrentSong setIsPlaying src title st)
       = false)
  ∧ (isCurrentSong src st = true →
     handlePlay setCurrentSong setIsPlaying src title
       (handlePlay setCurrentSong setIsPlaying src title st) = st).
Proof.
  intros Hsong Hplaying. destruct st as [current playing].
  unfold handlePlay, showsPause. rewrite !Hplaying, !Hsong.
  unfold isCurrentSong, assignIsPlaying, assignCurrentSong; simpl.
  destruct (bool_decide (cs_url <$> current = Some src)) eqn:Hcur; simpl.
  - rewrite ?Hcur; simpl. rewrite ?negb_involutive.
    apply bool_decide_eq_true in Hcur.
    split; [done|]. split; [|done].
    intros other Hother. rewrite bool_decide_eq_false_2; [done|].
    rewrite Hcur. congruence.
  - rewrite bool_decide_eq_true_2 by done.
    split; [done|]. split; [|done].
    intros other Hother. rewrite bool_decide_eq_false_2; [done|].
    congruence.
Qed.

Lemma handlePlay_switches_witness :
  showsPause "a.mp3"
    (handlePlay assignCurrentSong assignIsPlaying "a.mp3" "A"
       {| currentSong := Some {| cs_url := "b.mp3"; cs_title := "B" |};
          isPlaying := true |}) = true
  ∧ showsPause "b.mp3"
      (handlePlay assignCurrentSong assignIsPlaying "a.mp3" "A"
         {| currentSong := Some {| cs_url := "b.mp3"; cs_title := "B" |};
            isPlaying := true |}) = false.
Proof.
  destruct (handlePlay_switches assignCurrentSong assignIsPlaying
              "a.mp3" "A"
              {| currentSong := Some {| cs_url := "b.mp3"; cs_title := "B" |};
                 isPlaying := true |})
    as (Hown & Hothers & _); [done|done|].
  split; [exact Hown|]. by apply Hothers.
Defined.

(** ** Adding and reconciling *)

Lemma addToHistory_forces_entry history item clock :
  ∃ entry,
    st_history (addToHistory history item clock)
      = entry :: validHistory (clock ∘ S) history
    ∧ st_storage (addToHistory history item clock)
      = Some (Encoded (entry :: validHistory (clock ∘ S) history))
    ∧ status entry = Some "pending"
    ∧ id entry = orEmpty (id item)
    ∧ timestamp entry = orNow (clock 0) (timestamp item).
Proof. eexists. repeat split. Qed.

(** X22: a task added to the history and then reported completed at the
    poller's next run is stored, first in the list, as completed under
    its id, with the returned songs (the empty list when none are
    returned), the poll's clock reading as completedAt and the timestamp
    it was added with; the list has grown by the one item. *)
Theorem add_then_reconcile (history : list HistoryItem) (item : HistoryItem)
    (taskId : string) (t : Z) (data : TaskData)
    (fetchTaskDetails : nat → string → option TaskData)
    (addClock pollClock clock : nat → Z) :
  id item = Some taskId →
  timestamp item = Some t → t ≠ 0%Z →
  fetchTaskDetails 0 taskId = Some data →
  task_status data = "completed" →
  ∃ stored,
    st_history (updateHistoryWithCompletedTasks fetchTaskDetails pollClock
                  clock (addToHistory history item addClock)) !! 0
      = Some stored
    ∧ id stored = Some taskId
    ∧ status stored = Some "completed"
    ∧ songs stored = Some (default [] (task_songs data))
    ∧ completedAt stored = Some (pollClock 0)
    ∧ timestamp stored = Some t
    ∧ length (st_history (updateHistoryWithCompletedTasks fetchTaskDetails
                            pollClock clock
                            (addToHistory history item addClock)))
      = S (length history).
Proof.
  intros Hid Ht Hnz Hreply Hcompleted.
  destruct (addToHistory_forces_entry history item addClock)
    as (entry & Hhistory & Hstorage & Hstatus & Hentry_id & Hentry_t).
  assert (id entry = Some taskId) as Hentry
    by (rewrite Hentry_id, Hid; done).
  assert (idText (id entry) = taskId) as Htext by by rewrite Hentry.
  rewrite (poller_saves _ _ _ _ _ 0 entry Hstorage eq_refl)
    by by rewrite Htext, Hreply, checkTask_completed.
  cbn [st_history updateHistory].
  match goal with
  | |- ∃ _, ?l !! 0 = _ ∧ _ =>
      assert (length l = S (length history)) as Hlen
  end.
  { rewrite validHistory_length, length_fmap, length_imap.
    cbn [length]. by rewrite validHistory_length. }
  eexists. split.
  { rewrite validHistory_lookup, list_lookup_fmap, list_lookup_imap.
    reflexivity. }
  cbv beta. rewrite Htext, Hreply, checkTask_completed by done.
  do 5 (split; [unfold validItem, orNow; simpl;
                rewrite ?Hentry, ?Hentry_t, ?Ht; simpl;
                rewrite ?bool_decide_eq_false_2 by done; done|]).
  exact Hlen.
Qed.

Lemma add_then_reconcile_witness :
  ∃ stored,
    st_history (updateHistoryWithCompletedTasks allCompleted
                  (tickingClock 7000) (tickingClock 7001)
                  (addToHistory fiveItems (pendingItem "t6" 6000)
                     (tickingClock 6000))) !! 0 = Some stored
    ∧ id stored = Some "t6"
    ∧ status stored = Some "completed"
    ∧ songs stored = Some [sampleSong]
    ∧ completedAt stored = Some 7000%Z.
Proof.
  destruct (add_then_reconcile fiveItems (pendingItem "t6" 6000) "t6" 6000
              completedTask allCompleted (tickingClock 6000)
              (tickingClock 7000) (tickingClock 7001))
    as (stored & Hl & Hid & Hs & Hsongs & Hc & _); try done.
  exists stored. repeat split; assumption.
Defined.
